(** * AGV fault reporter: report normalisation and query layer

    A shallow embedding of [agv_fault_reporter/app.py] and the properties
    its specification states about it.

    Python values are modelled as follows.
    - A [str] is the list of its code points ([N]); literals are written as
      UTF-8 text and decoded by [u].
    - [re] patterns are modelled by the scan [re] performs: at each position
      the pattern is tried, a match consumes its characters, a failure
      advances by one character.
    - [dict] is a [gmap]; [dict(pairs)] inserts the pairs from left to right.
    - The SQLite store is a list of rows; statements are the texts the
      program builds, executed with positional parameters. *)

From Stdlib Require Import ZArith NArith String Ascii List Bool Lia Permutation.
From stdpp Require Import gmap list.

(** ** Python strings *)

Module PyStr.
Local Open Scope N_scope.

Abbreviation str := (list N).

(** UTF-8 decoding of a literal (well-formed input only; used for the
    literals of the program text). *)
Fixpoint utf8_go (acc : N) (pending : nat) (bs : list N) : list N :=
  match bs with
  | [] => []
  | b :: r =>
      match pending with
      | O => if b <? 128 then b :: utf8_go 0 0 r
             else if b <? 224 then utf8_go (b - 192) 1 r
             else if b <? 240 then utf8_go (b - 224) 2 r
             else utf8_go (b - 240) 3 r
      | S O => (acc * 64 + (b - 128)) :: utf8_go 0 0 r
      | S k => utf8_go (acc * 64 + (b - 128)) k r
      end
  end.

Definition u (s : string) : str :=
  utf8_go 0 0 (map N_of_ascii (list_ascii_of_string s)).

(** [Py_UNICODE_ISSPACE]: the characters [str.strip()] removes and the
    class [\s] of a [str] pattern. *)
Definition isspace (c : N) : bool :=
  ((9 <=? c) && (c <=? 13)) || ((28 <=? c) && (c <=? 32))
  || (c =? 133) || (c =? 160) || (c =? 5760)
  || ((8192 <=? c) && (c <=? 8202))
  || (c =? 8232) || (c =? 8233) || (c =? 8239) || (c =? 8287)
  || (c =? 12288).

Fixpoint lstrip_by (p : N -> bool) (s : str) : str :=
  match s with
  | [] => []
  | c :: t => if p c then lstrip_by p t else s
  end.

Definition rstrip_by (p : N -> bool) (s : str) : str :=
  rev (lstrip_by p (rev s)).

(** [s.strip()] *)
Definition strip (s : str) : str := lstrip_by isspace (rstrip_by isspace s).

(** [s.lstrip(chars)] *)
Definition lstrip (chars : str) (s : str) : str :=
  lstrip_by (fun c => existsb (N.eqb c) chars) s.

(** [s.replace(old, new)] for one-character [old] and [new]. *)
Definition replace (old new : N) (s : str) : str :=
  map (fun c => if c =? old then new else c) s.

(** [s.startswith(p)], returning what follows the prefix. *)
Fixpoint after_prefix (p s : str) : option str :=
  match p, s with
  | [], _ => Some s
  | _ :: _, [] => None
  | a :: p', b :: s' => if a =? b then after_prefix p' s' else None
  end.

(** [needle in hay] *)
Fixpoint contains (needle hay : str) : bool :=
  match after_prefix needle hay with
  | Some _ => true
  | None => match hay with
            | [] => false
            | _ :: t => contains needle t
            end
  end.

(** [sep.join(parts)] *)
Fixpoint join (sep : str) (parts : list str) : str :=
  match parts with
  | [] => []
  | [p] => p
  | p :: rest => p ++ sep ++ join sep rest
  end.

(** Truth value of a [str]. *)
Definition nonempty (s : str) : bool :=
  match s with [] => false | _ :: _ => true end.
End PyStr.
Import PyStr.

(** ** The two regular expressions of [parse_fault_text] *)

Module Re.
Local Open Scope N_scope.

(** The alternatives of group 1, in the order of the pattern. *)
Definition labels : list str :=
  Eval vm_compute in
    [u "发现人员"; u "时间"; u "车辆信息"; u "报警描述"; u "解决办法"; u "责任人"].

(** [[:：]] *)
Definition is_colon (c : N) : bool := (c =? 58) || (c =? 65306).

(** [.] without DOTALL *)
Definition is_dot (c : N) : bool := negb (c =? 10).

(** Greedy [p*]: the longest prefix of characters in [p], and the rest. *)
Fixpoint span (p : N -> bool) (s : str) : str * str :=
  match s with
  | [] => ([], [])
  | c :: t => if p c then let '(a, b) := span p t in (c :: a, b) else ([], s)
  end.

(** [(l1|l2|...)[:：]]: the first alternative after which the colon also
    matches (what backtracking over the alternation finds). *)
Fixpoint match_label (ls : list str) (s : str) : option (str * str) :=
  match ls with
  | [] => None
  | l :: ls' =>
      match after_prefix l s with
      | Some (c :: r) => if is_colon c then Some (l, r) else match_label ls' s
      | _ => match_label ls' s
      end
  end.

(** One attempt of [pattern] at a position; [bol] says whether [^]
    matches there. Returns the two groups and the length of the match. *)
Definition pattern_match (bol : bool) (s : str) : option (str * str * nat) :=
  if bol then
    match match_label labels s with
    | Some (l, r) =>
        let '(ws, r') := span isspace r in
        let '(v, _) := span is_dot r' in
        Some (l, v, (length l + 1 + length ws + length v)%nat)
    | None => None
    end
  else None.

(** [pattern.findall(s)]: [skip] characters of the last match are still
    to be passed over; [bol] holds at the start and after a newline. *)
Fixpoint findall_from (bol : bool) (skip : nat) (s : str) : list (str * str) :=
  match s with
  | [] => []
  | c :: t =>
      match skip with
      | S k => findall_from (c =? 10) k t
      | O =>
          match pattern_match bol s with
          | Some (l, v, n) => (l, v) :: findall_from (c =? 10) (Nat.pred n) t
          | None => findall_from (c =? 10) 0 t
          end
      end
  end.

Definition findall (s : str) : list (str * str) := findall_from true 0 s.

(** [[^一-龥a-zA-Z0-9\s@]]: the complement of the kept classes. *)
Definition kept (c : N) : bool :=
  ((19968 <=? c) && (c <=? 40869))
  || ((97 <=? c) && (c <=? 122)) || ((65 <=? c) && (c <=? 90))
  || ((48 <=? c) && (c <=? 57))
  || isspace c || (c =? 64).

Definition clean_class (c : N) : bool := negb (kept c).

(** One attempt of [clean_pattern] ([[...]+], greedy): the length of
    the match, [0] when the pattern fails. *)
Definition clean_match (s : str) : nat := length (fst (span clean_class s)).

(** [clean_pattern.sub(repl, s)] *)
Fixpoint clean_sub_from (repl : str) (skip : nat) (s : str) : str :=
  match s with
  | [] => []
  | c :: t =>
      match skip with
      | S k => clean_sub_from repl k t
      | O =>
          match clean_match s with
          | S n => repl ++ clean_sub_from repl n t
          | O => c :: clean_sub_from repl 0 t
          end
      end
  end.

Definition clean_sub (repl : str) (s : str) : str := clean_sub_from repl 0 s.
End Re.

(** ** [parse_fault_text]: extraction *)

(** [dict(pairs)]: later pairs overwrite earlier ones. *)
Definition dict (pairs : list (list N * list N)) : gmap (list N) (list N) :=
  fold_left (fun m kv => <[kv.1 := kv.2]> m) pairs ∅.

(** [d.get(k, '')] *)
Definition get (d : gmap (list N) (list N)) (k : list N) : list N :=
  default [] (d !! k).

Definition matches (raw_text : list N) : gmap (list N) (list N) :=
  dict (Re.findall raw_text).

Definition L_reporter : list N := Eval vm_compute in u "发现人员".
Definition L_time : list N := Eval vm_compute in u "时间".
Definition L_vehicle : list N := Eval vm_compute in u "车辆信息".
Definition L_description : list N := Eval vm_compute in u "报警描述".
Definition L_solution : list N := Eval vm_compute in u "解决办法".
Definition L_responsible : list N := Eval vm_compute in u "责任人".

(** Lines 61-66: cleaning of the responsible person. *)
Definition sanitize (responsible_person_raw : list N) : list N :=
  let responsible_person_cleaned :=
    strip (Re.clean_sub (u " ") responsible_person_raw) in
  lstrip (u "@") responsible_person_cleaned.

(** ** [parse_fault_text]: normalisation *)

Local Open Scope Z_scope.

(** A [datetime] value. *)
Record datetime := {
  year : Z; month : Z; day : Z; hour : Z; minute : Z; second : Z }.

(** [dt.replace(hour=h, minute=m, second=s)] *)
Definition replace_hms (dt : datetime) (h m s : Z) : datetime :=
  {| year := year dt; month := month dt; day := day dt;
     hour := h; minute := m; second := s |}.

Definition kw_charging : list N := Eval vm_compute in u "充电".
Definition kw_obstacle : list N := Eval vm_compute in u "避障".
Definition kw_localization : list N := Eval vm_compute in u "定位".
Definition kw_task : list N := Eval vm_compute in u "任务".

Definition cat_charging : list N := Eval vm_compute in u "充电失败".
Definition cat_obstacle : list N := Eval vm_compute in u "避障异常".
Definition cat_localization : list N := Eval vm_compute in u "定位丢失".
Definition cat_task : list N := Eval vm_compute in u "任务执行失败".
Definition cat_mechanical : list N := Eval vm_compute in u "机械故障".
Definition cat_other : list N := Eval vm_compute in u "其他".

Definition FAULT_CATEGORIES : list (list N) :=
  [cat_charging; cat_task; cat_obstacle; cat_localization; cat_mechanical;
   cat_other].

(** Lines 78-88: the category of a description. *)
Definition category_of (desc : list N) : list N :=
  if contains kw_charging desc then cat_charging
  else if contains kw_obstacle desc then cat_obstacle
  else if contains kw_localization desc then cat_localization
  else if contains kw_task desc then cat_task
  else cat_other.

(** The dictionary [data] that [parse_fault_text] returns. *)
Record fault_data := {
  reporter_name : list N;
  vehicle_id : list N;
  description : list N;
  solution : list N;
  responsible_person : list N;
  fault_time : option datetime;
  category : list N }.

Definition fmt_free_text : list N := Eval vm_compute in u "%Y年%m月%d日%H:%M".
Definition fmt_date : list N := Eval vm_compute in u "%Y-%m-%d".

(** Keys of [data], and the truth value of [data.get(key)]. *)
Inductive field :=
| Reporter_name | Fault_time | Vehicle_id | Category | Description | Solution
| Responsible_person.

Definition truthy (data : fault_data) (f : field) : bool :=
  match f with
  | Reporter_name => nonempty (reporter_name data)
  | Fault_time => match fault_time data with Some _ => true | None => false end
  | Vehicle_id => nonempty (vehicle_id data)
  | Category => nonempty (category data)
  | Description => nonempty (description data)
  | Solution => nonempty (solution data)
  | Responsible_person => nonempty (responsible_person data)
  end.

Definition required_fields : list field :=
  [Reporter_name; Fault_time; Vehicle_id; Description; Responsible_person].

(** ** The store *)

(** A row of the table [faults]. *)
Record row := {
  r_id : Z;
  r_reporter_name : list N;
  r_fault_time : option datetime;
  r_vehicle_id : list N;
  r_category : list N;
  r_status : list N;
  r_description : list N;
  r_solution : list N;
  r_resolution_log : list N;
  r_responsible_person : list N }.

(** A bound parameter of a statement. *)
Inductive sqlparam :=
| PText (s : list N)
| PTime (d : datetime)
| PInt (z : Z).

Definition status_pending : list N := Eval vm_compute in u "待修复".
Definition status_in_progress : list N := Eval vm_compute in u "处理中".
Definition status_resolved : list N := Eval vm_compute in u "已修复".
Definition FAULT_STATUSES : list (list N) :=
  [status_pending; status_in_progress; status_resolved].

(** Modelled from the spec: the schema of [faults] is not part of the
    source. The store assigns a fresh [id], and a new row has status
    Pending and an empty resolution log. *)
Definition new_row (db : list row) (data : fault_data) : row :=
  {| r_id := 1 + fold_right Z.max 0 (map r_id db);
     r_reporter_name := reporter_name data;
     r_fault_time := fault_time data;
     r_vehicle_id := vehicle_id data;
     r_category := category data;
     r_status := status_pending;
     r_description := description data;
     r_solution := solution data;
     r_resolution_log := [];
     r_responsible_person := responsible_person data |}.

Definition q_count_prefix : list N :=
  Eval vm_compute in u "SELECT COUNT(id) FROM faults WHERE ".
Definition q_select_prefix : list N :=
  Eval vm_compute in u "SELECT * FROM faults WHERE ".
Definition q_order : list N :=
  Eval vm_compute in u " ORDER BY fault_time DESC".
Definition q_limit : list N := Eval vm_compute in u " LIMIT ? OFFSET ?".

(** [s.endswith(p)], returning what precedes the suffix. *)
Definition before_suffix (p s : list N) : option (list N) :=
  option_map (@rev N) (after_prefix (rev p) (rev s)).

(** The statements [index] prepares, as the store reads them. *)
Inductive statement :=
| Count (where_sql : list N)
| Select (where_sql : list N) (limited : bool).

Definition prepare (query : list N) : option statement :=
  match after_prefix q_count_prefix query with
  | Some w => Some (Count w)
  | None =>
      match after_prefix q_select_prefix query with
      | Some rest =>
          match before_suffix (q_order ++ q_limit) rest with
          | Some w => Some (Select w true)
          | None =>
              match before_suffix q_order rest with
              | Some w => Some (Select w false)
              | None => None
              end
          end
      | None => None
      end
  end.

(** [sqlite3] binds a Python [int] only when it fits a signed 64-bit
    integer, and raises [OverflowError] otherwise. *)
Definition in_int64 (z : Z) : bool := (- 2 ^ 63 <=? z) && (z <? 2 ^ 63).

Definition bindable (p : sqlparam) : bool :=
  match p with
  | PInt z => in_int64 z
  | _ => true
  end.

(** The parameters of a limited [Select]: those of the WHERE clause, then
    LIMIT and OFFSET. *)
Definition split_limit (params : list sqlparam)
  : option (list sqlparam * Z * Z) :=
  match rev params with
  | PInt offset :: PInt limit :: rest => Some (rev rest, limit, offset)
  | _ => None
  end.

(** SQLite's LIMIT and OFFSET: a negative OFFSET counts as zero, a
    negative LIMIT as no limit. *)
Definition limit_offset (limit offset : Z) (rows : list row) : list row :=
  let rest := drop (Z.to_nat offset) rows in
  if (limit <? 0)%Z then rest else take (Z.to_nat limit) rest.

(** ** Pagination (lines 159-181 of [index]) *)

Definition allowed_per_page : list Z := [4; 5; 10].

(** Lines 163-164. *)
Definition resolve_per_page (per_page : Z) : Z :=
  if bool_decide (per_page ∈ allowed_per_page) then per_page else 5.

(** [math.ceil(a / b)] for [b > 0]. The quotient [a / b] is a float in
    the source; below 2^53 rows its ceiling is the exact one, which is
    what this definition computes. *)
Definition math_ceil_div (a b : Z) : Z := - ((- a) / b).

Record page_result := { page : Z; total_pages : Z; offset : Z }.

(** Lines 174-181. *)
Definition paginate (total_count per_page requested : Z) : page_result :=
  let total_pages := math_ceil_div total_count per_page in
  let page :=
    if (requested >? total_pages) && (total_pages >? 0) then total_pages
    else requested in
  {| page := page; total_pages := total_pages;
     offset := (page - 1) * per_page |}.

(** ** Search criteria (lines 123-155 of [index]) *)

Record search := {
  search_reporter : list N;
  search_responsible : list N;
  search_vehicle : list N;
  search_status : list N;
  search_start_date : list N;
  search_end_date : list N }.

Definition a_per_page : list N := Eval vm_compute in u "per_page".
Definition a_page : list N := Eval vm_compute in u "page".

(** [request.args], read with [get(key, '')]. *)
Definition search_params (args : gmap (list N) (list N)) : search :=
  {| search_reporter := strip (get args (u "search_reporter"));
     search_responsible := strip (get args (u "search_responsible"));
     search_vehicle := strip (get args (u "search_vehicle"));
     search_status := strip (get args (u "search_status"));
     search_start_date := strip (get args (u "search_start_date"));
     search_end_date := strip (get args (u "search_end_date")) |}.

Definition w_true : list N := Eval vm_compute in u "1=1".
Definition w_reporter : list N := Eval vm_compute in u "reporter_name LIKE ?".
Definition w_responsible : list N :=
  Eval vm_compute in u "responsible_person LIKE ?".
Definition w_vehicle : list N := Eval vm_compute in u "vehicle_id LIKE ?".
Definition w_status : list N := Eval vm_compute in u "status = ?".
Definition w_from : list N := Eval vm_compute in u "fault_time >= ?".
Definition w_to : list N := Eval vm_compute in u "fault_time <= ?".
Definition w_and : list N := Eval vm_compute in u " AND ".
Definition percent : list N := Eval vm_compute in u "%".

(** [f"%{s}%"] *)
Definition wildcard (s : list N) : list N := percent ++ s ++ percent.

(** One [if value: where_clauses.append(..); params.append(..)] step. *)
Definition add_clause (value clause : list N) (param : sqlparam)
    (acc : list (list N) * list sqlparam) : list (list N) * list sqlparam :=
  if nonempty value then (acc.1 ++ [clause], acc.2 ++ [param]) else acc.

Definition total_count_query (where_sql : list N) : list N :=
  q_count_prefix ++ where_sql.

Definition faults_query (where_sql : list N) : list N :=
  q_select_prefix ++ where_sql ++ q_order ++ q_limit.

(** ** Grouping dimensions (lines 270-303 of [statistics]) *)

Definition g_category : list N := Eval vm_compute in u "category".
Definition g_status : list N := Eval vm_compute in u "status".
Definition g_vehicle_id : list N := Eval vm_compute in u "vehicle_id".
Definition g_reporter_name : list N := Eval vm_compute in u "reporter_name".
Definition g_responsible_person : list N :=
  Eval vm_compute in u "responsible_person".
Definition g_by_date : list N := Eval vm_compute in u "by_date".

Definition allowed_group_by_columns : list (list N) :=
  [g_category; g_status; g_vehicle_id; g_reporter_name; g_responsible_person;
   g_by_date].

Definition msg_invalid_dimension : list N :=
  Eval vm_compute in u "检测到无效的统计维度，已重置为默认值。".
Definition flash_warning : list N := Eval vm_compute in u "warning".
Definition flash_error : list N := Eval vm_compute in u "error".
Definition flash_success : list N := Eval vm_compute in u "success".

(** Lines 273-278: the validated dimension and the messages flashed. *)
Definition resolve_group_by (arg : option (list N))
  : list N * list (list N * list N) :=
  let group_by := default g_category arg in
  if bool_decide (group_by ∈ allowed_group_by_columns) then (group_by, [])
  else (g_category, [(msg_invalid_dimension, flash_warning)]).

Definition s_date_fault_time : list N :=
  Eval vm_compute in u "DATE(fault_time)".
Definition s_select : list N := Eval vm_compute in u "SELECT ".
Definition s_group_head : list N :=
  Eval vm_compute in u " as group_key, COUNT(*) as count FROM faults WHERE 1=1".
Definition s_and_from : list N := Eval vm_compute in u " AND fault_time >= ?".
Definition s_and_to : list N := Eval vm_compute in u " AND fault_time <= ?".
Definition s_group_by_date : list N :=
  Eval vm_compute in u " GROUP BY group_key ORDER BY group_key ASC".
Definition s_group_by : list N := Eval vm_compute in u " GROUP BY ".
Definition s_order_count : list N := Eval vm_compute in u " ORDER BY count DESC".

(** Lines 281-287. *)
Definition group_by_clause (group_by : list N) : list N :=
  if bool_decide (group_by = g_by_date) then s_date_fault_time else group_by.

(** Lines 300-303. *)
Definition group_order (group_by : list N) : list N :=
  if bool_decide (group_by = g_by_date) then s_group_by_date
  else s_group_by ++ group_by ++ s_order_count.

(** Truth value of an optional argument ([None] or [''] is false). *)
Definition given (arg : option (list N)) : bool :=
  match arg with Some s => nonempty s | None => false end.

(** The text of the grouped query (lines 290-303); the parameters are
    built alongside and do not enter the text. *)
Definition statistics_query (group_by : list N)
    (start_date_str end_date_str : option (list N)) : list N :=
  s_select ++ group_by_clause group_by ++ s_group_head
  ++ (if given start_date_str then s_and_from else [])
  ++ (if given end_date_str then s_and_to else [])
  ++ group_order group_by.

(** ** Views *)

Definition msg_parse_failed : list N :=
  Eval vm_compute in
    u "解析失败！请检查输入格式是否正确，确保包含所有必需字段。".
Definition msg_parse_ok : list N :=
  Eval vm_compute in u "通过快速解析成功提交故障！".
Definition msg_insert_failed : list N :=
  Eval vm_compute in u "数据库插入失败: ".
Definition tab_quick : list N := Eval vm_compute in u "quick".

(** What a redirecting view leaves behind: the flashed messages and the
    tab of the redirect. *)
Record redirect := {
  flashed : list (list N * list N);
  tab : list N }.

(** What [index] hands to its template, with the statements it ran. *)
Record index_view := {
  faults : list row;
  view_page : page_result;
  per_page : Z;
  shown_search : search;
  executed : list (list N * list sqlparam) }.

Record statistics_view := {
  stats : list (option (list N) * Z);
  current_group_by : list N;
  stats_flashed : list (list N * list N);
  stats_query : list N;
  stats_params : list sqlparam }.

Section App.

(** [datetime.strptime(text, format)]; [None] stands for [ValueError]. *)
Variable strptime : list N -> list N -> option datetime.

(** [int(text)] as [request.args.get(.., type=int)] applies it. *)
Variable int : list N -> option Z.

(** The message of the exception the store raises for an INSERT, if any. *)
Variable insert_error : list row -> fault_data -> option (list N).

(** The truth of a WHERE clause on a row, under its parameters. *)
Variable where_holds : list N -> list sqlparam -> row -> bool.

(** [ORDER BY fault_time DESC]; the order among equal times is the
    store's. *)
Variable order_by_fault_time_desc : list row -> list row.

(** The result of a grouped SELECT. *)
Variable execute_grouped :
  list N -> list sqlparam -> list row -> list (option (list N) * Z).

(** Lines 43-90. *)
Definition parse_fault_text (raw_text : list N) : fault_data :=
  let matches := matches raw_text in
  let reporter_name := strip (get matches L_reporter) in
  let vehicle_id := strip (get matches L_vehicle) in
  let description := strip (get matches L_description) in
  let solution := strip (get matches L_solution) in
  let responsible_person_raw := strip (get matches L_responsible) in
  let responsible_person := sanitize responsible_person_raw in
  let time_str := strip (get matches L_time) in
  let fault_time := strptime (replace 65306%N 58%N time_str) fmt_free_text in
  {| reporter_name := reporter_name;
     vehicle_id := vehicle_id;
     description := description;
     solution := solution;
     responsible_person := responsible_person;
     fault_time := fault_time;
     category := category_of description |}.

(** Lines 212-243: the view's redirect and the store it leaves. *)
Definition parse_fault (raw_text : list N) (db : list row)
  : redirect * list row :=
  let parsed_data := parse_fault_text raw_text in
  if negb (forallb (truthy parsed_data) required_fields) then
    ({| flashed := [(msg_parse_failed, flash_error)]; tab := tab_quick |}, db)
  else
    match insert_error db parsed_data with
    | None =>
        ({| flashed := [(msg_parse_ok, flash_success)]; tab := tab_quick |},
         db ++ [new_row db parsed_data])
    | Some e =>
        ({| flashed := [(msg_insert_failed ++ e, flash_error)];
            tab := tab_quick |}, db)
    end.

(** Lines 132-153: the predicates and their parameters; [None] when a date
    does not parse and [index] raises. *)
Definition build_where (sp : search)
  : option (list (list N) * list sqlparam) :=
  let acc := ([w_true], []) in
  let acc := add_clause (search_reporter sp) w_reporter
               (PText (wildcard (search_reporter sp))) acc in
  let acc := add_clause (search_responsible sp) w_responsible
               (PText (wildcard (search_responsible sp))) acc in
  let acc := add_clause (search_vehicle sp) w_vehicle
               (PText (wildcard (search_vehicle sp))) acc in
  let acc := add_clause (search_status sp) w_status
               (PText (search_status sp)) acc in
  acc ← (if nonempty (search_start_date sp) then
           d ← strptime (search_start_date sp) fmt_date;
           Some (acc.1 ++ [w_from], acc.2 ++ [PTime d])
         else Some acc);
  if nonempty (search_end_date sp) then
    d ← strptime (search_end_date sp) fmt_date;
    Some (acc.1 ++ [w_to], acc.2 ++ [PTime (replace_hms d 23 59 59)])
  else Some acc.

(** [db.execute(query, params).fetchone()[0]] for a counting statement;
    [None] when [execute] raises because a parameter cannot be bound.
    The key [id] is never NULL, so COUNT(id) counts the rows. *)
Definition execute_count (query : list N) (params : list sqlparam)
    (db : list row) : option Z :=
  if forallb bindable params then
    match prepare query with
    | Some (Count w) =>
        Some (Z.of_nat (length (List.filter (where_holds w params) db)))
    | _ => None
    end
  else None.

(** [db.execute(query, params).fetchall()] for a selecting statement;
    [None] when [execute] raises because a parameter cannot be bound. *)
Definition execute_select (query : list N) (params : list sqlparam)
    (db : list row) : option (list row) :=
  if forallb bindable params then
    match prepare query with
    | Some (Select w false) =>
        Some (order_by_fault_time_desc
                (List.filter (where_holds w params) db))
    | Some (Select w true) =>
        '(ps, limit, offset) ← split_limit params;
        Some (limit_offset limit offset
                (order_by_fault_time_desc
                   (List.filter (where_holds w ps) db)))
    | _ => None
    end
  else None.

(** [request.args.get(key, default, type=int)] *)
Definition get_int (args : gmap (list N) (list N)) (key : list N)
    (default : Z) : Z :=
  match args !! key with
  | Some s => match int s with Some z => z | None => default end
  | None => default
  end.

(** Lines 122-207: the GET branch of [index]. [None] when the view raises:
    [ValueError] for a date that does not parse, [OverflowError] when the
    offset cannot be bound. *)
Definition index (args : gmap (list N) (list N)) (db : list row)
  : option index_view :=
  let search_params := search_params args in
  '(where_clauses, params) ← build_where search_params;
  let where_sql := join w_and where_clauses in
  let per_page := resolve_per_page (get_int args a_per_page 5) in
  let page := get_int args a_page 1 in
  let total_count_query := total_count_query where_sql in
  total_count ← execute_count total_count_query params db;
  let pr := paginate total_count per_page page in
  let faults_query := faults_query where_sql in
  faults ← execute_select faults_query
              (params ++ [PInt per_page; PInt (offset pr)]) db;
  Some {| faults := faults; view_page := pr; per_page := per_page;
          shown_search := search_params;
          executed :=
            [(total_count_query, params);
             (faults_query, params ++ [PInt per_page; PInt (offset pr)])] |}.

(** Lines 291-298: the parameters of the grouped query; [None] when a date
    does not parse and [statistics] raises. *)
Definition statistics_params (start_date_str end_date_str : option (list N))
  : option (list sqlparam) :=
  params ← (if given start_date_str then
              d ← strptime (default [] start_date_str) fmt_date;
              Some [PTime d]
            else Some []);
  if given end_date_str then
    d ← strptime (default [] end_date_str) fmt_date;
    Some (params ++ [PTime (replace_hms d 23 59 59)])
  else Some params.

(** Lines 263-324. *)
Definition statistics (group_by_arg start_date_str end_date_str
    : option (list N)) (db : list row) : option statistics_view :=
  let '(group_by, flashed) := resolve_group_by group_by_arg in
  let query := statistics_query group_by start_date_str end_date_str in
  params ← statistics_params start_date_str end_date_str;
  Some {| stats := execute_grouped query params db;
          current_group_by := group_by;
          stats_flashed := flashed;
          stats_query := query;
          stats_params := params |}.

End App.

(** ** Library functions, for running the views *)

(** The views take [datetime.strptime] and [int] as parameters. The
    instances below cover texts written with ASCII digits and are used to
    run the views on examples. *)
Module Lib.

Definition digit (c : N) : option Z :=
  if ((48 <=? c) && (c <=? 57))%N then Some (Z.of_N c - 48) else None.

Fixpoint number_from (acc : Z) (s : list N) : option Z :=
  match s with
  | [] => Some acc
  | c :: t => d ← digit c; number_from (10 * acc + d) t
  end.

(** A number written with at least [lo] and at most [hi] digits. *)
Definition number (lo hi : nat) (s : list N) : option Z :=
  if ((lo <=? length s) && (length s <=? hi))%nat then number_from 0 s
  else None.

(** The text before and after the first [sep]. *)
Fixpoint cut (sep : N) (s : list N) : option (list N * list N) :=
  match s with
  | [] => None
  | c :: t =>
      if (c =? sep)%N then Some ([], t)
      else '(a, b) ← cut sep t; Some (c :: a, b)
  end.

Definition is_leap (y : Z) : bool :=
  (y mod 4 =? 0) && (negb (y mod 100 =? 0) || (y mod 400 =? 0)).

Definition days_in_month (y m : Z) : Z :=
  if m =? 2 then (if is_leap y then 29 else 28)
  else if (m =? 4) || (m =? 6) || (m =? 9) || (m =? 11) then 30
  else 31.

Definition make (y m d H M : Z) : option datetime :=
  if (1 <=? y) && (1 <=? m) && (m <=? 12) && (1 <=? d)
     && (d <=? days_in_month y m) && (H <=? 23) && (M <=? 59)
  then Some {| year := y; month := m; day := d; hour := H; minute := M;
               second := 0 |}
  else None.

Definition c_year : N := Eval vm_compute in hd 0%N (u "年").
Definition c_month : N := Eval vm_compute in hd 0%N (u "月").
Definition c_day : N := Eval vm_compute in hd 0%N (u "日").

(** [%d] also accepts a blank and one digit. *)
Definition day_number (s : list N) : option Z :=
  match s with
  | [32%N; c] => digit c
  | _ => number 1 2 s
  end.

(** [datetime.strptime(text, format)] for the two formats of the views. *)
Definition strptime (text format : list N) : option datetime :=
  if bool_decide (format = fmt_free_text) then
    '(Y, r) ← cut c_year text;
    '(m, r) ← cut c_month r;
    '(d, r) ← cut c_day r;
    '(H, M) ← cut 58%N r;
    y ← number 4 4 Y; m ← number 1 2 m; d ← day_number d;
    H ← number 1 2 H; M ← number 1 2 M;
    make y m d H M
  else if bool_decide (format = fmt_date) then
    '(Y, r) ← cut 45%N text;
    '(m, d) ← cut 45%N r;
    y ← number 4 4 Y; m ← number 1 2 m; d ← day_number d;
    make y m d 0 0
  else None.

(** [int(text)] for an optional sign and digits. *)
Definition int (text : list N) : option Z :=
  match strip text with
  | [] => None
  | 45%N :: d :: ds => z ← number_from 0 (d :: ds); Some (- z)
  | 43%N :: d :: ds => number_from 0 (d :: ds)
  | ds => number_from 0 ds
  end.

End Lib.

(** ** Notions of the specification *)

Module Spec.

(** [kw] occurs in [desc]. *)
Definition occurs (kw desc : list N) : Prop :=
  exists pre post, desc = pre ++ kw ++ post.

(** The first pair for key [k]. *)
Fixpoint first_value (k : list N) (pairs : list (list N * list N))
  : option (list N) :=
  match pairs with
  | [] => None
  | (k', v) :: rest => if bool_decide (k' = k) then Some v else first_value k rest
  end.

(** The last pair for key [k]. *)
Definition last_value (k : list N) (pairs : list (list N * list N))
  : option (list N) :=
  first_value k (rev pairs).

(** [out] is [s] with every maximal run of characters outside the kept
    classes replaced by one space. *)
Inductive runs_replaced : list N -> list N -> Prop :=
| rr_nil : runs_replaced [] []
| rr_keep c s out :
    Re.kept c = true -> runs_replaced s out ->
    runs_replaced (c :: s) (c :: out)
| rr_run run s out :
    run <> [] -> Forall (fun c => Re.kept c = false) run ->
    (forall c, hd_error s = Some c -> Re.kept c = true) ->
    runs_replaced s out ->
    runs_replaced (run ++ s) (32%N :: out).

(** [t] is [s] without its leading and trailing whitespace. *)
Definition trimmed (s t : list N) : Prop :=
  exists a b,
    s = a ++ t ++ b
    /\ Forall (fun c => isspace c = true) a
    /\ Forall (fun c => isspace c = true) b
    /\ (forall c, hd_error t = Some c -> isspace c = false)
    /\ (forall c, last t = Some c -> isspace c = false).

(** [t] is [s] without any of its leading [@]. *)
Definition ats_stripped (s t : list N) : Prop :=
  exists n, s = repeat 64%N n ++ t /\ hd_error t <> Some 64%N.

(** [t] is [s] without one leading [@], if it has one. *)
Definition one_at_stripped (s : list N) : list N :=
  match s with
  | 64%N :: t => t
  | _ => s
  end.

(** A position at the start of a line. *)
Definition line_start (pre : list N) : Prop :=
  pre = [] \/ last pre = Some 10%N.

(** [v] is the value of a line of [raw] labelled [l]: the text from the
    first character that is not whitespace after the colon to the end of
    the line. *)
Definition labelled_line (raw l v : list N) : Prop :=
  exists pre c ws post,
    raw = pre ++ l ++ c :: ws ++ v ++ post
    /\ line_start pre
    /\ l ∈ Re.labels
    /\ Re.is_colon c = true
    /\ Forall (fun x => isspace x = true) ws
    /\ (forall x, hd_error (v ++ post) = Some x -> isspace x = false)
    /\ Forall (fun x => x <> 10%N) v
    /\ (forall x, hd_error post = Some x -> x = 10%N).

(** The closed set of grouping dimensions. *)
Inductive dimension :=
| Dcategory | Dstatus | Dvehicle_id | Dreporter_name | Dresponsible_person
| Dby_date.

Definition dimension_name (d : dimension) : list N :=
  match d with
  | Dcategory => g_category
  | Dstatus => g_status
  | Dvehicle_id => g_vehicle_id
  | Dreporter_name => g_reporter_name
  | Dresponsible_person => g_responsible_person
  | Dby_date => g_by_date
  end.

(** The query written by hand for each dimension. *)
Definition hand_built_select (d : dimension) : list N :=
  match d with
  | Dcategory =>
      u "SELECT category as group_key, COUNT(*) as count FROM faults WHERE 1=1"
  | Dstatus =>
      u "SELECT status as group_key, COUNT(*) as count FROM faults WHERE 1=1"
  | Dvehicle_id =>
      u "SELECT vehicle_id as group_key, COUNT(*) as count FROM faults WHERE 1=1"
  | Dreporter_name =>
      u "SELECT reporter_name as group_key, COUNT(*) as count FROM faults WHERE 1=1"
  | Dresponsible_person =>
      u "SELECT responsible_person as group_key, COUNT(*) as count FROM faults WHERE 1=1"
  | Dby_date =>
      u "SELECT DATE(fault_time) as group_key, COUNT(*) as count FROM faults WHERE 1=1"
  end.

Definition hand_built_group (d : dimension) : list N :=
  match d with
  | Dcategory => u " GROUP BY category ORDER BY count DESC"
  | Dstatus => u " GROUP BY status ORDER BY count DESC"
  | Dvehicle_id => u " GROUP BY vehicle_id ORDER BY count DESC"
  | Dreporter_name => u " GROUP BY reporter_name ORDER BY count DESC"
  | Dresponsible_person => u " GROUP BY responsible_person ORDER BY count DESC"
  | Dby_date => u " GROUP BY group_key ORDER BY group_key ASC"
  end.

Definition hand_built_query (d : dimension) (from to : bool) : list N :=
  hand_built_select d
  ++ (if from then u " AND fault_time >= ?" else [])
  ++ (if to then u " AND fault_time <= ?" else [])
  ++ hand_built_group d.

(** The page query without its LIMIT and OFFSET. *)
Definition unpaginated_query (where_sql : list N) : list N :=
  q_select_prefix ++ where_sql ++ q_order.

End Spec.

(** ** Example inputs *)

(** Two lines with the label of the reporter. *)
Definition ex_two_reporters : list N :=
  Eval vm_compute in u "发现人员:A" ++ 10%N :: u "发现人员:B".

(** A reporter line with blanks on both sides of the value. *)
Definition ex_padded_reporter : list N :=
  Eval vm_compute in L_reporter ++ 58%N :: u "  A  ".


(** A reporter line without a value, then a time line. *)
Definition ex_blank_reporter : list N :=
  Eval vm_compute in L_reporter ++ 58%N :: 10%N :: u "时间:x".

Definition ex_double_at : list N := Eval vm_compute in u "@@张三".
Definition ex_at_blank : list N := Eval vm_compute in u "@ foo".

(** A store with one row, and a request for page 0. *)
Definition ex_row : row :=
  {| r_id := 1; r_reporter_name := u "A"; r_fault_time := None;
     r_vehicle_id := u "V"; r_category := cat_other;
     r_status := status_pending; r_description := []; r_solution := [];
     r_resolution_log := []; r_responsible_person := u "B" |}.

Definition ex_page_zero : gmap (list N) (list N) :=
  <[a_page := u "0"]> ∅.

Definition ex_page_negative : gmap (list N) (list N) :=
  <[a_page := u "-2"]> (<[a_per_page := u "10"]> ∅).

(** A request with the six criteria, page 2 and four rows a page. *)
Definition ex_criteria : gmap (list N) (list N) :=
  <[u "search_reporter" := u "张"]>
    (<[u "search_responsible" := u "李"]>
       (<[u "search_vehicle" := u "AGV"]>
          (<[u "search_status" := status_pending]>
             (<[u "search_start_date" := u "2025-10-01"]>
                (<[u "search_end_date" := u " 2025-10-29 "]>
                   (<[a_page := u "2"]> (<[a_per_page := u "4"]> ∅))))))).

Definition ex_fault (id : Z) (status : list N) : row :=
  {| r_id := id; r_reporter_name := u "张三"; r_fault_time := None;
     r_vehicle_id := u "AGV-07"; r_category := cat_other;
     r_status := status; r_description := []; r_solution := [];
     r_resolution_log := []; r_responsible_person := u "李四" |}.

(** The parameters that [ex_criteria] binds. *)
Definition ex_criteria_params : list sqlparam :=
  [PText (wildcard (u "张")); PText (wildcard (u "李"));
   PText (wildcard (u "AGV")); PText status_pending;
   PTime {| year := 2025; month := 10; day := 1;
            hour := 0; minute := 0; second := 0 |};
   PTime {| year := 2025; month := 10; day := 29;
            hour := 23; minute := 59; second := 59 |}].

(** Seven rows, six of them pending. *)
Definition ex_store : list row :=
  [ex_fault 1 status_pending; ex_fault 2 status_pending;
   ex_fault 3 status_resolved; ex_fault 4 status_pending;
   ex_fault 5 status_pending; ex_fault 6 status_pending;
   ex_fault 7 status_pending].

(** A WHERE clause that holds on the rows whose status is a text
    parameter. *)
Definition ex_where_holds (w : list N) (params : list sqlparam) (r : row)
  : bool :=
  existsb (fun p => match p with
                    | PText s => bool_decide (s = r_status r)
                    | _ => false
                    end) params.

(** A request for a page far below the first. *)
Definition ex_page_far_below : gmap (list N) (list N) :=
  <[a_page := u "-4611686018427387904"]> ∅.

Definition ex_datetime : datetime :=
  {| year := 2025; month := 10; day := 29; hour := 15; minute := 53;
     second := 0 |}.

Definition ex_date : datetime :=
  {| year := 2025; month := 10; day := 29; hour := 0; minute := 0;
     second := 0 |}.

(** A complete report. *)
Definition ex_report : list N :=
  Eval vm_compute in
    u "发现人员：张三" ++ 10%N :: u "时间：2025年10月29日15：53" ++ 10%N
    :: u "车辆信息：AGV-07" ++ 10%N :: u "报警描述：充电任务超时" ++ 10%N
    :: u "解决办法：重启" ++ 10%N :: u "责任人：@李四".

(** ** The structured submission (lines 100-120 of [index]) *)

Definition f_reporter_name : list N := Eval vm_compute in u "reporter_name".
Definition f_fault_time : list N := Eval vm_compute in u "fault_time".
Definition f_vehicle_id : list N := Eval vm_compute in u "vehicle_id".
Definition f_category : list N := Eval vm_compute in u "category".
Definition f_description : list N := Eval vm_compute in u "description".
Definition f_solution : list N := Eval vm_compute in u "solution".
Definition f_responsible_person : list N :=
  Eval vm_compute in u "responsible_person".
Definition f_status : list N := Eval vm_compute in u "status".
Definition f_resolution_log : list N := Eval vm_compute in u "resolution_log".

Definition fmt_form : list N := Eval vm_compute in u "%Y-%m-%dT%H:%M".
Definition msg_submitted : list N := Eval vm_compute in u "故障已成功提交！".
Definition msg_submit_failed : list N := Eval vm_compute in u "提交失败: ".
Definition msg_updated : list N := Eval vm_compute in u "记录已更新！".
Definition tab_detailed : list N := Eval vm_compute in u "detailed".

(** What the [try] block of the submission can raise. *)
Inductive raised :=
| KeyError (key : list N)
| ValueError (text format : list N)
| StoreError (message : list N).

(** [request.form[key]] *)
Definition form_get (form : gmap (list N) (list N)) (key : list N)
  : raised + list N :=
  match form !! key with
  | Some v => inr v
  | None => inl (KeyError key)
  end.

(** Sequencing of statements that may raise. *)
Definition try_bind {A B : Type} (m : raised + A) (k : A -> raised + B)
  : raised + B :=
  match m with
  | inl e => inl e
  | inr a => k a
  end.

(** ** [edit_fault] (lines 247-260) *)

Inductive method := GET | POST.

Inductive edit_response :=
| Edit_redirect (flashes : list (list N * list N))
| Edit_bad_request (key : list N)
| Edit_overflow
| Edit_not_found
| Edit_page (fault : row).

(** [UPDATE faults SET status = ?, resolution_log = ? WHERE id = ?] *)
Definition update_fault (status resolution_log : list N) (fault_id : Z)
    (db : list row) : list row :=
  map (fun r =>
         if r_id r =? fault_id then
           {| r_id := r_id r;
              r_reporter_name := r_reporter_name r;
              r_fault_time := r_fault_time r;
              r_vehicle_id := r_vehicle_id r;
              r_category := r_category r;
              r_status := status;
              r_description := r_description r;
              r_solution := r_solution r;
              r_resolution_log := resolution_log;
              r_responsible_person := r_responsible_person r |}
         else r) db.

(** [SELECT * FROM faults WHERE id = ?], [fetchone()] *)
Definition select_fault (fault_id : Z) (db : list row) : option row :=
  List.find (fun r => r_id r =? fault_id) db.

(** Lines 249-260; a missing form key ends the request with status 400,
    and an id that cannot be bound makes [execute] raise [OverflowError]. *)
Definition edit_fault (m : method) (fault_id : Z)
    (form : gmap (list N) (list N)) (db : list row)
  : edit_response * list row :=
  match m with
  | POST =>
      match form !! f_status with
      | None => (Edit_bad_request f_status, db)
      | Some status =>
          match form !! f_resolution_log with
          | None => (Edit_bad_request f_resolution_log, db)
          | Some resolution_log =>
              if in_int64 fault_id then
                (Edit_redirect [(msg_updated, flash_success)],
                 update_fault status resolution_log fault_id db)
              else (Edit_overflow, db)
          end
      end
  | GET =>
      if in_int64 fault_id then
        match select_fault fault_id db with
        | None => (Edit_not_found, db)
        | Some fault => (Edit_page fault, db)
        end
      else (Edit_overflow, db)
  end.

(** ** [download] (lines 328-349) *)

(** A value of a fetched row; the columns of [faults] hold integers and
    texts. *)
Inductive sqlvalue :=
| Null
| Int (z : Z)
| Text (s : list N).

Definition q_download : list N :=
  Eval vm_compute in
    u "SELECT id, reporter_name, fault_time, vehicle_id, category, status, description, solution, resolution_log, responsible_person FROM faults WHERE 1=1".

(** Lines 332-341. *)
Definition download_query (start_date_str end_date_str : option (list N))
  : list N :=
  q_download
  ++ (if given start_date_str then s_and_from else [])
  ++ (if given end_date_str then s_and_to else [])
  ++ q_order.

Definition csv_header : list (list N) :=
  Eval vm_compute in
    [u "ID"; u "发现人员"; u "故障时间"; u "车辆信息"; u "错误类别";
     u "解决状态"; u "报警描述"; u "解决办法"; u "处理记录"; u "责任人"].

(** [str(n)] for an integer. *)
Fixpoint digits_of_uint (d : Decimal.uint) : list N :=
  match d with
  | Decimal.Nil => []
  | Decimal.D0 r => 48%N :: digits_of_uint r
  | Decimal.D1 r => 49%N :: digits_of_uint r
  | Decimal.D2 r => 50%N :: digits_of_uint r
  | Decimal.D3 r => 51%N :: digits_of_uint r
  | Decimal.D4 r => 52%N :: digits_of_uint r
  | Decimal.D5 r => 53%N :: digits_of_uint r
  | Decimal.D6 r => 54%N :: digits_of_uint r
  | Decimal.D7 r => 55%N :: digits_of_uint r
  | Decimal.D8 r => 56%N :: digits_of_uint r
  | Decimal.D9 r => 57%N :: digits_of_uint r
  end.

Definition str_of_int (z : Z) : list N :=
  match Z.to_int z with
  | Decimal.Pos d => digits_of_uint d
  | Decimal.Neg d => 45%N :: digits_of_uint d
  end.

(** What [csv.writer] writes for a value: nothing for [None], [str] for a
    number, the text itself for a [str]. *)
Definition csv_text (v : sqlvalue) : list N :=
  match v with
  | Null => []
  | Int z => str_of_int z
  | Text s => s
  end.

(** The characters that make [csv.writer] (dialect [excel]) quote a field:
    the delimiter, the quote character, and those of the line terminator. *)
Definition csv_special (c : N) : bool :=
  ((c =? 44) || (c =? 34) || (c =? 13) || (c =? 10))%N.

(** A field as written: quoted when it has a special character, with every
    quote character doubled. *)
Definition csv_field (s : list N) : list N :=
  if existsb csv_special s then
    34%N :: flat_map (fun c => if (c =? 34)%N then [34%N; 34%N] else [c]) s
    ++ [34%N]
  else s.

(** [writer.writerow(fields)]: a lone empty field is written quoted. *)
Definition csv_record (fields : list (list N)) : list N :=
  match fields with
  | [[]] => [34%N; 34%N; 13%N; 10%N]
  | _ => join [44%N] (map csv_field fields) ++ [13%N; 10%N]
  end.

(** Lines 343-347. *)
Definition csv_content (rows : list (list sqlvalue)) : list N :=
  flat_map csv_record (csv_header :: map (map csv_text) rows).

(** The UTF-8 bytes of a character; surrogates cannot be encoded. *)
Definition utf8_char (c : N) : option (list N) :=
  (if c <? 128 then Some [c]
   else if c <? 2048 then Some [192 + c / 64; 128 + c mod 64]
   else if c <? 65536 then
     if (55296 <=? c) && (c <=? 57343) then None
     else Some [224 + c / 4096; 128 + (c / 64) mod 64; 128 + c mod 64]
   else if c <? 1114112 then
     Some [240 + c / 262144; 128 + (c / 4096) mod 64; 128 + (c / 64) mod 64;
           128 + c mod 64]
   else None)%N.

Fixpoint utf8_encode (s : list N) : option (list N) :=
  match s with
  | [] => Some []
  | c :: t => b ← utf8_char c; r ← utf8_encode t; Some (b ++ r)
  end.

Definition utf8_bom : list N := [239%N; 187%N; 191%N].

(** [s.encode('utf-8-sig')]; [None] stands for [UnicodeEncodeError]. *)
Definition encode_utf8_sig (s : list N) : option (list N) :=
  b ← utf8_encode s; Some (utf8_bom ++ b).

Definition h_attachment : list N :=
  Eval vm_compute in u "attachment;filename=agv_faults_".
Definition h_csv : list N := Eval vm_compute in u ".csv".
Definition mime_csv : list N := Eval vm_compute in u "text/csv".

Record download_response := {
  body : list N;
  mimetype : list N;
  content_disposition : list N;
  download_executed : list N * list sqlparam }.

Section Forms.

Variable strptime : list N -> list N -> option datetime.
Variable insert_error : list row -> fault_data -> option (list N).

(** [str(e)] for what the [try] block raised. *)
Variable str_of_raised : raised -> list N.

(** The rows a SELECT of the ten columns fetches. *)
Variable fetch_export :
  list N -> list sqlparam -> list row -> list (list sqlvalue).

(** Lines 102-109: the values read from the form. *)
Definition submitted (form : gmap (list N) (list N)) : raised + fault_data :=
  try_bind (form_get form f_reporter_name) (fun reporter_name =>
  try_bind (form_get form f_fault_time) (fun fault_time_str =>
  try_bind (match strptime fault_time_str fmt_form with
            | Some t => inr t
            | None => inl (ValueError fault_time_str fmt_form)
            end) (fun fault_time =>
  try_bind (form_get form f_vehicle_id) (fun vehicle_id =>
  try_bind (form_get form f_category) (fun category =>
  try_bind (form_get form f_description) (fun description =>
  try_bind (form_get form f_solution) (fun solution =>
  try_bind (form_get form f_responsible_person) (fun responsible_person =>
  inr {| reporter_name := reporter_name;
         vehicle_id := vehicle_id;
         description := description;
         solution := solution;
         responsible_person := responsible_person;
         fault_time := Some fault_time;
         category := category |})))))))).

(** Lines 100-120: the POST branch of [index]. *)
Definition index_post (form : gmap (list N) (list N)) (db : list row)
  : redirect * list row :=
  let attempt :=
    try_bind (submitted form) (fun data =>
      match insert_error db data with
      | Some e => inl (StoreError e)
      | None => inr (db ++ [new_row db data])
      end) in
  match attempt with
  | inr db' =>
      ({| flashed := [(msg_submitted, flash_success)]; tab := tab_detailed |},
       db')
  | inl e =>
      ({| flashed := [(msg_submit_failed ++ str_of_raised e, flash_error)];
          tab := tab_detailed |}, db)
  end.

(** Lines 328-349. [today] is [datetime.now().strftime('%Y%m%d')]. *)
Definition download (today : list N)
    (start_date_str end_date_str : option (list N)) (db : list row)
  : option download_response :=
  let query := download_query start_date_str end_date_str in
  params ← statistics_params strptime start_date_str end_date_str;
  let faults_to_download := fetch_export query params db in
  let csv_content := csv_content faults_to_download in
  encoded_content ← encode_utf8_sig csv_content;
  Some {| body := encoded_content;
          mimetype := mime_csv;
          content_disposition := h_attachment ++ today ++ h_csv;
          download_executed := (query, params) |}.

End Forms.

(** ** A reader for the exported text *)

Module Csv.

Inductive mode := Plain | Quoted | Quote_seen | After_cr.

(** The state of the reader: the records read, the fields of the current
    record, the current field. *)
Record state := {
  records : list (list (list N));
  fields : list (list N);
  cur : list N;
  at_mode : mode }.

Definition start : state :=
  {| records := []; fields := []; cur := []; at_mode := Plain |}.

Definition add (st : state) (c : N) (m : mode) : state :=
  {| records := records st; fields := fields st; cur := cur st ++ [c];
     at_mode := m |}.

Definition end_field (st : state) : state :=
  {| records := records st; fields := fields st ++ [cur st]; cur := [];
     at_mode := Plain |}.

Definition end_record (st : state) : state :=
  {| records := records st ++ [fields st ++ [cur st]]; fields := [];
     cur := []; at_mode := Plain |}.

Definition set_mode (st : state) (m : mode) : state :=
  {| records := records st; fields := fields st; cur := cur st;
     at_mode := m |}.

(** One character: a comma ends a field, CR LF ends a record, a quote
    opens a quoted field, in which a doubled quote stands for a quote. *)
Definition step (st : state) (c : N) : state :=
  match at_mode st with
  | Plain =>
      if (c =? 34)%N then set_mode st Quoted
      else if (c =? 44)%N then end_field st
      else if (c =? 13)%N then set_mode st After_cr
      else add st c Plain
  | Quoted =>
      if (c =? 34)%N then set_mode st Quote_seen else add st c Quoted
  | Quote_seen =>
      if (c =? 34)%N then add st c Quoted
      else if (c =? 44)%N then end_field st
      else if (c =? 13)%N then set_mode st After_cr
      else add st c Plain
  | After_cr =>
      if (c =? 10)%N then end_record st else add st c Plain
  end.

Definition read (text : list N) : list (list (list N)) :=
  records (fold_left step text start).

End Csv.

(** ** Further notions used in the properties *)

Module Notions.

(** A labelled line: label, colon, blanks, value. *)
Definition line_text (x : list N * N * list N * list N) : list N :=
  let '(l, c, ws, v) := x in l ++ c :: ws ++ v.

Definition line_pair (x : list N * N * list N * list N) : list N * list N :=
  let '(l, _, _, v) := x in (l, v).

(** The value is not blank at its start and stays on its line. *)
Definition plain_line (x : list N * N * list N * list N) : Prop :=
  let '(l, c, ws, v) := x in
  l ∈ Re.labels
  /\ Re.is_colon c = true
  /\ Forall (fun a => isspace a = true) ws
  /\ (exists a, hd_error v = Some a /\ isspace a = false)
  /\ Forall (fun a => a <> 10%N) v.

(** The number of [?] placeholders of a statement. *)
Definition placeholders (query : list N) : nat :=
  length (List.filter (fun c => (c =? 63)%N) query).

(** The fixed predicates of the list view. *)
Definition where_templates : list (list N) :=
  [w_true; w_reporter; w_responsible; w_vehicle; w_status; w_from; w_to].

(** Which criteria are filled in. *)
Definition filled (sp : search) : list bool :=
  [nonempty (search_reporter sp); nonempty (search_responsible sp);
   nonempty (search_vehicle sp); nonempty (search_status sp);
   nonempty (search_start_date sp); nonempty (search_end_date sp)].

(** The fields of a row that an edit leaves alone. *)
Definition same_report (r r' : row) : Prop :=
  r_id r' = r_id r
  /\ r_reporter_name r' = r_reporter_name r
  /\ r_fault_time r' = r_fault_time r
  /\ r_vehicle_id r' = r_vehicle_id r
  /\ r_category r' = r_category r
  /\ r_description r' = r_description r
  /\ r_solution r' = r_solution r
  /\ r_responsible_person r' = r_responsible_person r.




(** A character that UTF-8 can encode. *)
Definition scalar (c : N) : Prop :=
  (c < 55296 \/ 57343 < c < 1114112)%N.

End Notions.

(** * Properties *)

(** ** Strings *)

Lemma after_prefix_app (p s : list N) : after_prefix p (p ++ s) = Some s.
Proof.
  induction p as [|a p IH]; simpl; [reflexivity|].
  rewrite N.eqb_refl. exact IH.
Qed.

Lemma after_prefix_Some (p s r : list N) :
  after_prefix p s = Some r -> s = p ++ r.
Proof.
  revert s. induction p as [|a p IH]; intros s H; simpl in *.
  - congruence.
  - destruct s as [|b s]; [discriminate|].
    destruct (N.eqb_spec a b) as [->|]; [|discriminate].
    f_equal. auto.
Qed.

Lemma contains_occurs (kw desc : list N) :
  contains kw desc = true <-> Spec.occurs kw desc.
Proof.
  split.
  - induction desc as [|c desc IH]; simpl.
    + destruct (after_prefix kw []) eqn:E; [|discriminate].
      intros _. exists [], l. simpl. now apply after_prefix_Some.
    + destruct (after_prefix kw (c :: desc)) eqn:E.
      * intros _. exists [], l. simpl. now apply after_prefix_Some.
      * intros H. destruct (IH H) as (pre & post & ->).
        now exists (c :: pre), post.
  - intros (pre & post & ->). induction pre as [|c pre IH]; simpl.
    + destruct (kw ++ post) eqn:E; simpl; rewrite <- ?E;
        now rewrite after_prefix_app.
    + destruct (after_prefix kw (c :: pre ++ kw ++ post)); [reflexivity|].
      exact IH.
Qed.

(** ** Pagination *)

Lemma math_ceil_div_bounds (a b : Z) :
  0 < b ->
  (math_ceil_div a b - 1) * b < a <= math_ceil_div a b * b.
Proof.
  intros Hb. unfold math_ceil_div.
  pose proof (Z.div_mod (- a) b ltac:(lia)) as Hdm.
  pose proof (Z.mod_pos_bound (- a) b Hb) as Hm.
  nia.
Qed.

Lemma allowed_per_page_cases (per_page : Z) :
  per_page ∈ allowed_per_page -> per_page = 4 \/ per_page = 5 \/ per_page = 10.
Proof.
  unfold allowed_per_page. intros H.
  repeat (apply elem_of_cons in H as [H|H]; [auto|]).
  now apply elem_of_nil in H.
Qed.

Lemma resolve_per_page_allowed (per_page : Z) :
  resolve_per_page per_page ∈ allowed_per_page.
Proof.
  unfold resolve_per_page. case_bool_decide; [assumption|].
  unfold allowed_per_page. set_solver.
Qed.

(** C4 (amended). For a non-negative row count, a page size from the
    allow-list and a positive requested page: the page count is the ceiling
    of the row count over the page size (zero for zero rows); a request
    beyond a positive page count is clamped to it, any other request is
    kept; the offset is (page - 1) * page size and is never negative; and
    when there is at least one page, the page lies in
    [1, max(total_pages, 1)] and page * size - size is below the row count.
    With no page at all the requested page is kept as it is. *)
Theorem pagination_resolved (total_count per_page requested : Z) :
  0 <= total_count -> per_page ∈ allowed_per_page -> 1 <= requested ->
  let r := paginate total_count per_page requested in
  ((total_pages r - 1) * per_page < total_count <= total_pages r * per_page)
  /\ (total_count = 0 -> total_pages r = 0)
  /\ (requested > total_pages r -> total_pages r > 0 ->
      page r = total_pages r)
  /\ (requested <= total_pages r -> page r = requested)
  /\ (total_pages r = 0 -> page r = requested)
  /\ offset r = (page r - 1) * per_page
  /\ 0 <= offset r
  /\ (total_pages r > 0 ->
      1 <= page r <= Z.max (total_pages r) 1
      /\ page r * per_page - per_page < total_count).
Proof.
  intros Htc Hpp Hreq.
  assert (Hb : 0 < per_page) by (apply allowed_per_page_cases in Hpp; lia).
  pose proof (math_ceil_div_bounds total_count per_page Hb) as Hc.
  unfold paginate; simpl.
  set (tp := math_ceil_div total_count per_page) in *.
  assert (Htp : 0 <= tp) by nia.
  destruct (Z.gtb_spec requested tp) as [Hgt|Hle];
    destruct (Z.gtb_spec tp 0) as [Hpos|Hzero]; simpl;
    repeat split; intros; try lia; try nia.
Qed.

Lemma pagination_resolved_witness :
  page (paginate 3 5 99) = 1 /\ 0 <= offset (paginate 3 5 99).
Proof.
  destruct (pagination_resolved 3 5 99) as (_ & _ & H3 & _ & _ & _ & H7 & _);
    [lia | unfold allowed_per_page; set_solver | lia |].
  split; [apply H3; vm_compute; reflexivity | exact H7].
Defined.

(** C4 as stated fails: with no matching row a requested page beyond the
    first is kept. *)
Lemma pagination_range_counterexample :
  total_pages (paginate 0 5 2) = 0
  /\ page (paginate 0 5 2) = 2
  /\ ~ (1 <= page (paginate 0 5 2)
        <= Z.max (total_pages (paginate 0 5 2)) 1).
Proof. vm_compute. repeat split; try reflexivity. intros [_ H]. now apply H. Qed.

Lemma paginate_below_one (total_count per_page p : Z) :
  0 <= total_count -> per_page ∈ allowed_per_page -> p < 1 ->
  let r := paginate total_count per_page p in
  p <= total_pages r
  /\ page r = p
  /\ offset r = (p - 1) * per_page
  /\ offset r < 0.
Proof.
  intros Htc Hpp Hp.
  assert (Hb : 0 < per_page) by (apply allowed_per_page_cases in Hpp; lia).
  pose proof (math_ceil_div_bounds total_count per_page Hb) as Hc.
  unfold paginate; simpl.
  set (tp := math_ceil_div total_count per_page) in *.
  assert (Htp : 0 <= tp) by nia.
  destruct (Z.gtb_spec p tp) as [Hgt|Hle]; [lia|]. simpl.
  repeat split; try lia; nia.
Qed.

(** ** Category inference *)

(** C6. Category inference follows the fixed priority order: a description
    in which the charging keyword occurs is a charging failure; else one
    with the obstacle-avoidance keyword is an obstacle-avoidance anomaly;
    else one with the localization keyword is a localization loss; else one
    with the task keyword is a task execution failure; else it is Other.
    A description with both the charging and the task keyword is a
    charging failure. [parse_fault_text] assigns the category this way. *)
Theorem category_priority (desc : list N) :
  (Spec.occurs kw_charging desc -> category_of desc = cat_charging)
  /\ (~ Spec.occurs kw_charging desc -> Spec.occurs kw_obstacle desc ->
      category_of desc = cat_obstacle)
  /\ (~ Spec.occurs kw_charging desc -> ~ Spec.occurs kw_obstacle desc ->
      Spec.occurs kw_localization desc -> category_of desc = cat_localization)
  /\ (~ Spec.occurs kw_charging desc -> ~ Spec.occurs kw_obstacle desc ->
      ~ Spec.occurs kw_localization desc -> Spec.occurs kw_task desc ->
      category_of desc = cat_task)
  /\ (~ Spec.occurs kw_charging desc -> ~ Spec.occurs kw_obstacle desc ->
      ~ Spec.occurs kw_localization desc -> ~ Spec.occurs kw_task desc ->
      category_of desc = cat_other)
  /\ (Spec.occurs kw_charging desc -> Spec.occurs kw_task desc ->
      category_of desc = cat_charging)
  /\ (forall strptime raw_text,
        category (parse_fault_text strptime raw_text)
        = category_of (description (parse_fault_text strptime raw_text))).
Proof.
  unfold category_of.
  rewrite <- !contains_occurs.
  destruct (contains kw_charging desc), (contains kw_obstacle desc),
    (contains kw_localization desc), (contains kw_task desc);
    repeat split; intros; try reflexivity; try congruence.
Qed.

(** ** Grouping dimensions *)

Lemma allowed_group_by_dimension (s : list N) :
  s ∈ allowed_group_by_columns <-> exists d, s = Spec.dimension_name d.
Proof.
  split.
  - unfold allowed_group_by_columns. intros H.
    repeat (apply elem_of_cons in H as [->|H]);
      [ now exists Spec.Dcategory | now exists Spec.Dstatus
      | now exists Spec.Dvehicle_id | now exists Spec.Dreporter_name
      | now exists Spec.Dresponsible_person | now exists Spec.Dby_date | ].
    now apply elem_of_nil in H.
  - intros [d ->]. unfold allowed_group_by_columns.
    destruct d; simpl; set_solver.
Qed.

Lemma statistics_query_hand_built (d : Spec.dimension)
    (start_date_str end_date_str : option (list N)) :
  statistics_query (Spec.dimension_name d) start_date_str end_date_str
  = Spec.hand_built_query d (given start_date_str) (given end_date_str).
Proof.
  unfold statistics_query, Spec.hand_built_query.
  destruct (given start_date_str), (given end_date_str), d;
    vm_compute; reflexivity.
Qed.

(** C1. A requested dimension outside the closed set resolves to
    [category] and flashes the advisory, and the request completes (whenever
    the date range parses) with the query written by hand for [category].
    A dimension of the set is kept, its fragment is the column name itself
    or DATE(fault_time) for [by_date], nothing is flashed, and the query is
    the one written by hand for that dimension: the text of the query is
    fixed by the member of the closed set alone. *)
Theorem aggregation_whitelist (s : list N)
    (start_date_str end_date_str : option (list N)) :
  (s ∉ allowed_group_by_columns ->
     resolve_group_by (Some s)
     = (g_category, [(msg_invalid_dimension, flash_warning)])
     /\ forall strptime execute_grouped db params,
          statistics_params strptime start_date_str end_date_str = Some params ->
          let query :=
            Spec.hand_built_query Spec.Dcategory
              (given start_date_str) (given end_date_str) in
          statistics strptime execute_grouped (Some s)
            start_date_str end_date_str db
          = Some {| stats := execute_grouped query params db;
                    current_group_by := g_category;
                    stats_flashed := [(msg_invalid_dimension, flash_warning)];
                    stats_query := query;
                    stats_params := params |})
  /\ (s ∈ allowed_group_by_columns ->
      exists d,
        s = Spec.dimension_name d
        /\ resolve_group_by (Some s) = (s, [])
        /\ group_by_clause s
           = match d with Spec.Dby_date => s_date_fault_time | _ => s end
        /\ forall strptime execute_grouped db params,
             statistics_params strptime start_date_str end_date_str
             = Some params ->
             let query :=
               Spec.hand_built_query d
                 (given start_date_str) (given end_date_str) in
             statistics strptime execute_grouped (Some s)
               start_date_str end_date_str db
             = Some {| stats := execute_grouped query params db;
                       current_group_by := s;
                       stats_flashed := [];
                       stats_query := query;
                       stats_params := params |}).
Proof.
  split.
  - intros Hout.
    assert (Hr : resolve_group_by (Some s)
                 = (g_category, [(msg_invalid_dimension, flash_warning)])).
    { unfold resolve_group_by; simpl. now case_bool_decide. }
    split; [exact Hr|].
    intros strptime execute_grouped db params Hp query.
    unfold statistics. rewrite Hr, Hp. simpl.
    pose proof (statistics_query_hand_built Spec.Dcategory
                  start_date_str end_date_str) as Hq.
    simpl in Hq. rewrite Hq. reflexivity.
  - intros Hin.
    destruct (proj1 (allowed_group_by_dimension s) Hin) as [d ->].
    exists d.
    assert (Hr : resolve_group_by (Some (Spec.dimension_name d))
                 = (Spec.dimension_name d, [])).
    { unfold resolve_group_by; simpl. now case_bool_decide. }
    repeat split; [exact Hr | now destruct d |].
    intros strptime execute_grouped db params Hp query.
    unfold statistics. rewrite Hr, Hp. simpl.
    rewrite statistics_query_hand_built. reflexivity.
Qed.

(** End-to-end example 4 of the specification. *)
Example aggregation_dropTable :
  resolve_group_by (Some (u "dropTable"))
  = (g_category, [(msg_invalid_dimension, flash_warning)]).
Proof. vm_compute. reflexivity. Qed.

(** ** The field extractor *)

Lemma first_value_app (k : list N) (a b : list (list N * list N)) :
  Spec.first_value k (a ++ b)
  = match Spec.first_value k a with
    | Some v => Some v
    | None => Spec.first_value k b
    end.
Proof.
  induction a as [|[k' v] a IH]; simpl; [reflexivity|].
  now case_bool_decide.
Qed.

Lemma fold_insert_lookup (pairs : list (list N * list N))
    (m : gmap (list N) (list N)) (k : list N) :
  fold_left (fun m kv => <[kv.1 := kv.2]> m) pairs m !! k
  = match Spec.last_value k pairs with
    | Some v => Some v
    | None => m !! k
    end.
Proof.
  revert m. induction pairs as [|[k' v] pairs IH]; intros m; simpl.
  - reflexivity.
  - rewrite IH. unfold Spec.last_value. simpl. rewrite first_value_app.
    destruct (Spec.first_value k (rev pairs)); [reflexivity|].
    simpl. case_bool_decide as Hk.
    + subst. now rewrite lookup_insert_eq.
    + now rewrite lookup_insert_ne.
Qed.

Lemma dict_lookup (pairs : list (list N * list N)) (k : list N) :
  dict pairs !! k = Spec.last_value k pairs.
Proof.
  unfold dict. rewrite fold_insert_lookup.
  now destruct (Spec.last_value k pairs).
Qed.

Lemma first_value_elem (k v : list N) (pairs : list (list N * list N)) :
  Spec.first_value k pairs = Some v -> (k, v) ∈ pairs.
Proof.
  induction pairs as [|[k' v'] pairs IH]; simpl; [discriminate|].
  case_bool_decide.
  - intros [= ->]. subst. apply elem_of_cons. now left.
  - intros H'. apply elem_of_cons. right. auto.
Qed.

Lemma last_value_elem (k v : list N) (pairs : list (list N * list N)) :
  Spec.last_value k pairs = Some v -> (k, v) ∈ pairs.
Proof.
  intros H. apply first_value_elem in H.
  apply list_elem_of_In, in_rev. now apply list_elem_of_In.
Qed.

Lemma span_spec (p : N -> bool) (s a b : list N) :
  Re.span p s = (a, b) ->
  s = a ++ b
  /\ Forall (fun c => p c = true) a
  /\ (forall c, hd_error b = Some c -> p c = false).
Proof.
  revert a b. induction s as [|c s IH]; intros a b; simpl.
  - intros [= <- <-]. repeat split; [constructor | discriminate].
  - destruct (p c) eqn:Hc.
    + destruct (Re.span p s) as [a' b'] eqn:E. intros [= <- <-].
      destruct (IH a' b' eq_refl) as (-> & Ha & Hb).
      repeat split; [now constructor | exact Hb].
    + intros [= <- <-]. repeat split; [constructor|].
      simpl. now intros c' [= <-].
Qed.

Lemma match_label_spec (ls : list (list N)) (s l r : list N) :
  Re.match_label ls s = Some (l, r) ->
  l ∈ ls /\ exists c, Re.is_colon c = true /\ s = l ++ c :: r.
Proof.
  induction ls as [|l0 ls IH]; simpl; [discriminate|].
  intros H.
  assert (Hrest : Re.match_label ls s = Some (l, r) ->
                  l ∈ l0 :: ls
                  /\ exists c, Re.is_colon c = true /\ s = l ++ c :: r).
  { intros H'. destruct (IH H') as [Hin Hc]. split; [|exact Hc].
    apply elem_of_cons. now right. }
  destruct (after_prefix l0 s) as [[|c r0]|] eqn:E; auto.
  destruct (Re.is_colon c) eqn:Hc; auto.
  injection H as <- <-. apply after_prefix_Some in E.
  split; [apply elem_of_cons; now left|]. now exists c.
Qed.

Lemma pattern_match_spec (bol : bool) (s l v : list N) (n : nat) :
  Re.pattern_match bol s = Some (l, v, n) ->
  bol = true /\ l ∈ Re.labels
  /\ exists c ws post,
       s = l ++ c :: ws ++ v ++ post
       /\ Re.is_colon c = true
       /\ Forall (fun x => isspace x = true) ws
       /\ (forall x, hd_error (v ++ post) = Some x -> isspace x = false)
       /\ Forall (fun x => x <> 10%N) v
       /\ (forall x, hd_error post = Some x -> x = 10%N)
       /\ n = length (l ++ c :: ws ++ v).
Proof.
  unfold Re.pattern_match. destruct bol; [|discriminate].
  destruct (Re.match_label Re.labels s) as [[l0 r]|] eqn:El; [|discriminate].
  destruct (Re.span isspace r) as [ws r'] eqn:Ew.
  destruct (Re.span Re.is_dot r') as [v0 post] eqn:Ev.
  intros [= <- <- <-].
  destruct (match_label_spec _ _ _ _ El) as (Hin & c & Hc & ->).
  destruct (span_spec _ _ _ _ Ew) as (-> & Hws & Hhd).
  destruct (span_spec _ _ _ _ Ev) as (-> & Hv & Hpost).
  repeat split; [exact Hin|].
  exists c, ws, post. repeat split; auto.
  - eapply Forall_impl; [exact Hv|]. simpl. unfold Re.is_dot.
    intros x Hx ->. discriminate.
  - intros x Hx. apply Hpost in Hx. unfold Re.is_dot in Hx.
    now destruct (N.eqb_spec x 10).
  - rewrite !length_app. simpl. rewrite length_app. lia.
Qed.

Lemma findall_from_sound (s pre : list N) (bol : bool) (skip : nat)
    (l v : list N) :
  (bol = true -> Spec.line_start pre) ->
  (l, v) ∈ Re.findall_from bol skip s ->
  Spec.labelled_line (pre ++ s) l v.
Proof.
  revert pre bol skip. induction s as [|c t IH]; intros pre bol skip Hbol; simpl.
  - intros H. now apply elem_of_nil in H.
  - assert (Hnext : forall k, (l, v) ∈ Re.findall_from (c =? 10)%N k t ->
                              Spec.labelled_line (pre ++ c :: t) l v).
    { intros k Hk.
      replace (pre ++ c :: t) with ((pre ++ [c]) ++ t)
        by now rewrite <- app_assoc.
      eapply IH; [|exact Hk].
      intros Hc. right. apply N.eqb_eq in Hc. subst c. apply last_snoc. }
    destruct skip as [|k]; [|apply Hnext].
    destruct (Re.pattern_match bol (c :: t)) as [[[l0 v0] n]|] eqn:E;
      [|apply Hnext].
    intros [H|H]%elem_of_cons; [|eapply Hnext; exact H].
    injection H as -> ->.
    destruct (pattern_match_spec _ _ _ _ _ E)
      as (-> & Hl & c' & ws & post & Hs & Hc & Hws & Hhd & Hv & Hpost & _).
    exists pre, c', ws, post. rewrite Hs. repeat split; auto.
Qed.

Lemma span_app (p : N -> bool) (a b : list N) :
  Forall (fun c => p c = true) a ->
  (forall c, hd_error b = Some c -> p c = false) ->
  Re.span p (a ++ b) = (a, b).
Proof.
  intros Ha Hb. induction Ha as [|c a Hc Ha IH]; simpl.
  - destruct b as [|c b]; [reflexivity|].
    simpl. now rewrite (Hb c eq_refl).
  - now rewrite Hc, IH.
Qed.

Lemma match_label_labels (l r : list N) (c : N) :
  l ∈ Re.labels -> Re.is_colon c = true ->
  Re.match_label Re.labels (l ++ c :: r) = Some (l, r).
Proof.
  unfold Re.labels. intros Hl Hc.
  repeat (apply elem_of_cons in Hl as [->|Hl]);
    [simpl; now rewrite Hc ..|].
  now apply elem_of_nil in Hl.
Qed.

Lemma pattern_match_line (l ws v post : list N) (c : N) :
  l ∈ Re.labels -> Re.is_colon c = true ->
  Forall (fun x => isspace x = true) ws ->
  (forall x, hd_error (v ++ post) = Some x -> isspace x = false) ->
  Forall (fun x => x <> 10%N) v ->
  (forall x, hd_error post = Some x -> x = 10%N) ->
  Re.pattern_match true (l ++ c :: ws ++ v ++ post)
  = Some (l, v, length (l ++ c :: ws ++ v)).
Proof.
  intros Hl Hc Hws Hhd Hv Hpost. unfold Re.pattern_match.
  rewrite (match_label_labels l _ c Hl Hc).
  rewrite (span_app isspace ws (v ++ post) Hws Hhd).
  rewrite (span_app Re.is_dot v post).
  - do 3 f_equal. rewrite !length_app. simpl. rewrite length_app. lia.
  - eapply Forall_impl; [exact Hv|]. simpl. intros x Hx. unfold Re.is_dot.
    now destruct (N.eqb_spec x 10).
  - intros x Hx. rewrite (Hpost x Hx). reflexivity.
Qed.

Lemma findall_from_skip (x rest : list N) (bol : bool) :
  Re.findall_from bol (length x) (x ++ rest)
  = Re.findall_from
      (match last x with Some c => (c =? 10)%N | None => bol end) 0 rest.
Proof.
  revert bol. induction x as [|c x IH]; intros bol; [reflexivity|].
  simpl. rewrite IH. destruct x as [|d x]; [reflexivity|].
  rewrite last_cons_cons. destruct (last (d :: x)) eqn:E; [reflexivity|].
  apply last_None in E. discriminate.
Qed.

(** The scan at a labelled line: its value is reported and the scan
    resumes after it. *)
Lemma findall_from_line (l ws v post : list N) (c : N) :
  l ∈ Re.labels -> Re.is_colon c = true ->
  Forall (fun x => isspace x = true) ws ->
  (forall x, hd_error (v ++ post) = Some x -> isspace x = false) ->
  Forall (fun x => x <> 10%N) v ->
  (forall x, hd_error post = Some x -> x = 10%N) ->
  Re.findall_from true 0 (l ++ c :: ws ++ v ++ post)
  = (l, v) :: Re.findall_from false 0 post.
Proof.
  intros Hl Hc Hws Hhd Hv Hpost.
  pose proof (pattern_match_line l ws v post c Hl Hc Hws Hhd Hv Hpost) as Hm.
  replace (l ++ c :: ws ++ v ++ post) with ((l ++ c :: ws ++ v) ++ post) in *
    by (rewrite <- !app_assoc; simpl; now rewrite <- !app_assoc).
  destruct (l ++ c :: ws ++ v) as [|c0 m] eqn:Em.
  { destruct l; discriminate. }
  change ((c0 :: m) ++ post) with (c0 :: m ++ post) in *.
  cbn [Re.findall_from]. rewrite Hm. f_equal.
  cbn [length Nat.pred]. rewrite findall_from_skip.
  destruct post as [|p post]; [reflexivity|].
  pose proof (Hpost p eq_refl) as ->.
  destruct v as [|v0 v] using rev_ind.
  { specialize (Hhd 10%N eq_refl). discriminate. }
  clear IHv.
  assert (Hlast : last (c0 :: m) = Some v0).
  { rewrite <- Em.
    replace (l ++ c :: ws ++ v ++ [v0]) with ((l ++ c :: ws ++ v) ++ [v0])
      by (rewrite <- !app_assoc; simpl; now rewrite <- !app_assoc).
    apply last_snoc. }
  assert (Hv0 : v0 <> 10%N).
  { apply Forall_app in Hv as [_ Hv]. now inversion Hv. }
  assert (Hflag : match last m with
                  | Some c => (c =? 10)%N
                  | None => (c0 =? 10)%N
                  end = false).
  { destruct m as [|m0 m].
    - simpl in *. injection Hlast as ->. now apply N.eqb_neq.
    - rewrite last_cons_cons in Hlast. rewrite Hlast. now apply N.eqb_neq. }
  now rewrite Hflag.
Qed.

Lemma findall_from_newline (t : list N) :
  Re.findall_from false 0 (10%N :: t) = Re.findall_from true 0 t.
Proof. reflexivity. Qed.











(** Two lines with the same label. *)
Lemma findall_two_lines (l ws1 v1 ws2 v2 : list N) (c1 c2 : N) :
  l ∈ Re.labels -> Re.is_colon c1 = true -> Re.is_colon c2 = true ->
  Forall (fun x => isspace x = true) ws1 ->
  Forall (fun x => isspace x = true) ws2 ->
  (exists x, hd_error v1 = Some x /\ isspace x = false) ->
  (forall x, hd_error v2 = Some x -> isspace x = false) ->
  Forall (fun x => x <> 10%N) v1 -> Forall (fun x => x <> 10%N) v2 ->
  Re.findall (l ++ c1 :: ws1 ++ v1 ++ 10%N :: l ++ c2 :: ws2 ++ v2)
  = [(l, v1); (l, v2)].
Proof.
  intros Hl Hc1 Hc2 Hws1 Hws2 (x1 & Hx1 & Hs1) Hhd2 Hv1 Hv2.
  unfold Re.findall. rewrite findall_from_line; auto.
  - rewrite findall_from_newline.
    replace (l ++ c2 :: ws2 ++ v2) with (l ++ c2 :: ws2 ++ v2 ++ [])
      by now rewrite app_nil_r.
    rewrite findall_from_line; auto.
    + now rewrite app_nil_r.
    + discriminate.
  - destruct v1; [discriminate|]. simpl in *. intros x [= <-].
    now injection Hx1 as ->.
  - simpl. now intros x [= <-].
Qed.

(** C2 (amended). For every raw text and every label the extractor returns
    the value of the last match of that label; when the same label stands
    on two lines, the value of the second line is returned. *)
Theorem extractor_last_occurrence_wins :
  (forall raw_text l,
      matches raw_text !! l = Spec.last_value l (Re.findall raw_text)
      /\ get (matches raw_text) l
         = default [] (Spec.last_value l (Re.findall raw_text)))
  /\ (forall l ws1 v1 ws2 v2 c1 c2,
        l ∈ Re.labels -> Re.is_colon c1 = true -> Re.is_colon c2 = true ->
        Forall (fun x => isspace x = true) ws1 ->
        Forall (fun x => isspace x = true) ws2 ->
        (exists x, hd_error v1 = Some x /\ isspace x = false) ->
        (forall x, hd_error v2 = Some x -> isspace x = false) ->
        Forall (fun x => x <> 10%N) v1 -> Forall (fun x => x <> 10%N) v2 ->
        get (matches (l ++ c1 :: ws1 ++ v1 ++ 10%N :: l ++ c2 :: ws2 ++ v2)) l
        = v2).
Proof.
  split.
  - intros raw_text l. unfold get, matches. now rewrite dict_lookup.
  - intros l ws1 v1 ws2 v2 c1 c2 Hl Hc1 Hc2 Hws1 Hws2 Hx1 Hhd2 Hv1 Hv2.
    unfold get, matches. rewrite dict_lookup.
    rewrite (findall_two_lines l ws1 v1 ws2 v2 c1 c2); auto.
    unfold Spec.last_value. simpl. now rewrite bool_decide_eq_true_2.
Qed.

Lemma extractor_last_occurrence_wins_witness :
  get (matches (u "发现人员:A" ++ 10%N :: u "发现人员：B")) L_reporter = u "B".
Proof.
  exact (proj2 extractor_last_occurrence_wins
           L_reporter [] (u "A") [] (u "B") 58%N 65306%N
           ltac:(vm_compute; set_solver) eq_refl eq_refl
           ltac:(constructor) ltac:(constructor)
           ltac:(exists 65%N; split; reflexivity)
           ltac:(vm_compute; intros x [= <-]; reflexivity)
           ltac:(vm_compute; repeat constructor; discriminate)
           ltac:(vm_compute; repeat constructor; discriminate)).
Defined.

(** C2 as stated fails: the later line overrides the earlier one. *)
Lemma extractor_first_occurrence_counterexample :
  Spec.first_value L_reporter (Re.findall ex_two_reporters) = Some (u "A")
  /\ get (matches ex_two_reporters) L_reporter = u "B"
  /\ get (matches ex_two_reporters) L_reporter <> u "A".
Proof. vm_compute. repeat split; discriminate. Qed.


(** A label whose value is blank takes the next line that is not blank as
    its value, and the label of that line is not returned. *)
Example extractor_absorbs_next_line :
  Re.findall ex_blank_reporter = [(L_reporter, u "时间:x")]
  /\ matches ex_blank_reporter !! L_time = None.
Proof. vm_compute. split; reflexivity. Qed.


(** ** Identity sanitization *)

Lemma lstrip_by_spec (p : N -> bool) (s : list N) :
  exists a,
    s = a ++ lstrip_by p s
    /\ Forall (fun c => p c = true) a
    /\ (forall c, hd_error (lstrip_by p s) = Some c -> p c = false).
Proof.
  induction s as [|c s (a & Hs & Ha & Hhd)]; simpl.
  - exists []. repeat split; [constructor | discriminate].
  - destruct (p c) eqn:Hc.
    + exists (c :: a). repeat split; [simpl; now f_equal | now constructor
                                      | exact Hhd].
    + exists []. repeat split; [constructor|]. simpl. now intros c' [= <-].
Qed.

Lemma lstrip_by_id (p : N -> bool) (s : list N) :
  (forall c, hd_error s = Some c -> p c = false) -> lstrip_by p s = s.
Proof.
  destruct s as [|c s]; [reflexivity|]. simpl. intros H.
  now rewrite (H c eq_refl).
Qed.

Lemma lstrip_by_length (p : N -> bool) (s : list N) :
  (length (lstrip_by p s) <= length s)%nat.
Proof.
  induction s as [|c s IH]; simpl; [lia|]. destruct (p c); simpl; lia.
Qed.

Lemma hd_error_rev (s : list N) : hd_error (rev s) = last s.
Proof.
  destruct s as [|c s] using rev_ind; [reflexivity|].
  rewrite rev_app_distr, last_snoc. reflexivity.
Qed.

Lemma last_rev (s : list N) : last (rev s) = hd_error s.
Proof. rewrite <- hd_error_rev. now rewrite rev_involutive. Qed.

Lemma rstrip_by_spec (p : N -> bool) (s : list N) :
  exists b,
    s = rstrip_by p s ++ b
    /\ Forall (fun c => p c = true) b
    /\ (forall c, last (rstrip_by p s) = Some c -> p c = false).
Proof.
  unfold rstrip_by.
  destruct (lstrip_by_spec p (rev s)) as (a & Hs & Ha & Hhd).
  exists (rev a). repeat split.
  - rewrite <- rev_app_distr, <- Hs. now rewrite rev_involutive.
  - apply Forall_forall. intros x Hx%list_elem_of_In%in_rev%list_elem_of_In.
    revert x Hx. now apply Forall_forall.
  - intros c Hc. rewrite last_rev in Hc. auto.
Qed.

Lemma rstrip_by_id (p : N -> bool) (s : list N) :
  (forall c, last s = Some c -> p c = false) -> rstrip_by p s = s.
Proof.
  intros H. unfold rstrip_by. rewrite lstrip_by_id.
  - apply rev_involutive.
  - intros c Hc. rewrite hd_error_rev in Hc. auto.
Qed.

Lemma last_suffix (a t : list N) (c : N) :
  last t = Some c -> last (a ++ t) = Some c.
Proof. intros H. rewrite last_app, H. reflexivity. Qed.

Lemma strip_trimmed (s : list N) : Spec.trimmed s (strip s).
Proof.
  unfold strip.
  destruct (rstrip_by_spec isspace s) as (b & Hs & Hb & Hlast).
  destruct (lstrip_by_spec isspace (rstrip_by isspace s))
    as (a & Hr & Ha & Hhd).
  exists a, b. repeat split; auto.
  - rewrite app_assoc, <- Hr. exact Hs.
  - intros c Hc. apply Hlast. rewrite Hr. now apply last_suffix.
Qed.

Lemma strip_id (s : list N) :
  (forall c, hd_error s = Some c -> isspace c = false) ->
  (forall c, last s = Some c -> isspace c = false) ->
  strip s = s.
Proof.
  intros Hhd Hlast. unfold strip.
  rewrite (rstrip_by_id _ _ Hlast). now apply lstrip_by_id.
Qed.

Lemma lstrip_at_stripped (s : list N) : Spec.ats_stripped s (lstrip (u "@") s).
Proof.
  unfold lstrip.
  destruct (lstrip_by_spec (fun c => existsb (N.eqb c) (u "@")) s)
    as (a & Hs & Ha & Hhd).
  exists (length a). split.
  - rewrite Hs at 1. f_equal.
    clear Hs. induction Ha as [|c a Hc Ha IH]; [reflexivity|].
    simpl. f_equal; [|exact IH].
    change (u "@") with [64%N] in Hc. simpl in Hc.
    rewrite orb_false_r in Hc. now apply N.eqb_eq in Hc.
  - intros H. apply Hhd in H. discriminate.
Qed.

Lemma clean_sub_from_skip (repl x rest : list N) :
  Re.clean_sub_from repl (length x) (x ++ rest) = Re.clean_sub_from repl 0 rest.
Proof. induction x as [|c x IH]; [reflexivity | exact IH]. Qed.

Lemma clean_sub_kept (repl s : list N) (c : N) :
  Re.kept c = true ->
  Re.clean_sub repl (c :: s) = c :: Re.clean_sub repl s.
Proof.
  intros Hc. unfold Re.clean_sub. simpl. unfold Re.clean_match. simpl.
  unfold Re.clean_class at 1. now rewrite Hc.
Qed.

Lemma clean_sub_run (repl run rest : list N) :
  run <> [] -> Forall (fun c => Re.kept c = false) run ->
  (forall c, hd_error rest = Some c -> Re.kept c = true) ->
  Re.clean_sub repl (run ++ rest) = repl ++ Re.clean_sub repl rest.
Proof.
  intros Hne Hrun Hrest.
  assert (Hspan : Re.span Re.clean_class (run ++ rest) = (run, rest)).
  { apply span_app.
    - eapply Forall_impl; [exact Hrun|]. simpl. intros c Hc.
      unfold Re.clean_class. now rewrite Hc.
    - intros c Hc. unfold Re.clean_class. now rewrite (Hrest c Hc). }
  destruct run as [|c run]; [congruence|].
  unfold Re.clean_sub. change ((c :: run) ++ rest) with (c :: run ++ rest) in *.
  cbn [Re.clean_sub_from]. unfold Re.clean_match. rewrite Hspan.
  cbn [fst length]. now rewrite clean_sub_from_skip.
Qed.

Lemma clean_sub_runs_replaced (s : list N) :
  Spec.runs_replaced s (Re.clean_sub (u " ") s).
Proof.
  remember (length s) as n eqn:Hn. revert s Hn.
  induction n as [n IH] using lt_wf_ind. intros s Hn.
  destruct s as [|c s]; [constructor|].
  destruct (Re.kept c) eqn:Hc.
  - rewrite clean_sub_kept by exact Hc. constructor; [exact Hc|].
    apply (IH (length s)); simpl in *; [lia | reflexivity].
  - destruct (Re.span Re.clean_class (c :: s)) as [run rest] eqn:Hspan.
    destruct (span_spec _ _ _ _ Hspan) as (Hs & Hrun & Hrest).
    assert (Hne : run <> []).
    { intros ->. simpl in Hs. subst rest.
      specialize (Hrest c eq_refl). unfold Re.clean_class in Hrest.
      rewrite Hc in Hrest. discriminate. }
    assert (Hrun' : Forall (fun c => Re.kept c = false) run).
    { eapply Forall_impl; [exact Hrun|]. simpl. unfold Re.clean_class.
      intros x Hx. now destruct (Re.kept x). }
    assert (Hrest' : forall x, hd_error rest = Some x -> Re.kept x = true).
    { intros x Hx. apply Hrest in Hx. unfold Re.clean_class in Hx.
      now destruct (Re.kept x). }
    rewrite Hs. rewrite clean_sub_run by assumption.
    change (u " ") with [32%N]. simpl.
    apply Spec.rr_run; try assumption.
    apply (IH (length rest)); [|reflexivity].
    subst n. rewrite Hs, length_app. destruct run; [congruence|]. simpl. lia.
Qed.

Lemma runs_replaced_kept (s out : list N) :
  Spec.runs_replaced s out -> Forall (fun c => Re.kept c = true) out.
Proof. induction 1; constructor; auto. Qed.

Lemma runs_replaced_id (s : list N) :
  Forall (fun c => Re.kept c = true) s -> Re.clean_sub (u " ") s = s.
Proof.
  induction 1 as [|c s Hc Hs IH]; [reflexivity|].
  rewrite clean_sub_kept by exact Hc. now f_equal.
Qed.

Lemma Forall_suffix (P : N -> Prop) (a t : list N) :
  Forall P (a ++ t) -> Forall P t.
Proof. intros H. now apply Forall_app in H as [_ H]. Qed.

Lemma sanitize_stages (raw : list N) :
  exists cleaned trimmed,
    cleaned = Re.clean_sub (u " ") raw
    /\ trimmed = strip cleaned
    /\ Spec.runs_replaced raw cleaned
    /\ Spec.trimmed cleaned trimmed
    /\ Spec.ats_stripped trimmed (sanitize raw).
Proof.
  exists (Re.clean_sub (u " ") raw), (strip (Re.clean_sub (u " ") raw)).
  repeat split.
  - apply clean_sub_runs_replaced.
  - apply strip_trimmed.
  - apply lstrip_at_stripped.
Qed.

(** C3 (amended). Identity sanitization replaces every maximal run of
    characters outside the kept classes (CJK ideographs, Latin letters,
    decimal digits, whitespace, [@]) by one space, then trims leading and
    trailing whitespace, then strips every leading [@]; [parse_fault_text]
    applies it to the trimmed value of the responsible person. *)
Theorem sanitize_replaces_trims_strips (raw : list N) :
  (exists cleaned trimmed,
      Spec.runs_replaced raw cleaned
      /\ Spec.trimmed cleaned trimmed
      /\ Spec.ats_stripped trimmed (sanitize raw))
  /\ (forall strptime raw_text,
        responsible_person (parse_fault_text strptime raw_text)
        = sanitize (strip (get (matches raw_text) L_responsible))).
Proof.
  split; [|reflexivity].
  destruct (sanitize_stages raw) as (cleaned & trimmed & _ & _ & H).
  now exists cleaned, trimmed.
Qed.

(** C3 as stated fails: every leading [@] is removed, not just one. *)
Lemma sanitize_one_at_counterexample :
  strip (Re.clean_sub (u " ") ex_double_at) = u "@@张三"
  /\ Spec.one_at_stripped (strip (Re.clean_sub (u " ") ex_double_at))
     = u "@张三"
  /\ sanitize ex_double_at = u "张三"
  /\ sanitize ex_double_at
     <> Spec.one_at_stripped (strip (Re.clean_sub (u " ") ex_double_at))
  /\ hd_error (sanitize ex_double_at) <> Some 64%N.
Proof. vm_compute. repeat split; discriminate. Qed.

Lemma sanitize_kept (raw : list N) :
  Forall (fun c => Re.kept c = true) (sanitize raw).
Proof.
  destruct (sanitize_stages raw)
    as (cleaned & trimmed & _ & _ & Hc & (a & b & Ht & _) & (n & Hn & _)).
  apply runs_replaced_kept in Hc. rewrite Ht in Hc.
  apply Forall_suffix in Hc. apply Forall_app in Hc as [Hc _].
  rewrite Hn in Hc. now apply Forall_suffix in Hc.
Qed.

Lemma sanitize_no_leading_at (raw : list N) :
  hd_error (sanitize raw) <> Some 64%N.
Proof.
  destruct (sanitize_stages raw) as (cleaned & trimmed & _ & _ & _ & _ & n & _ & H).
  exact H.
Qed.

Lemma sanitize_no_trailing_space (raw : list N) (c : N) :
  last (sanitize raw) = Some c -> isspace c = false.
Proof.
  destruct (sanitize_stages raw)
    as (cleaned & trimmed & _ & _ & _ & (a & b & _ & _ & _ & _ & Hlast)
        & (n & Hn & _)).
  intros Hc. apply Hlast. rewrite Hn. now apply last_suffix.
Qed.

Lemma sanitize_fixed (s : list N) :
  Forall (fun c => Re.kept c = true) s ->
  (forall c, hd_error s = Some c -> isspace c = false) ->
  (forall c, last s = Some c -> isspace c = false) ->
  hd_error s <> Some 64%N ->
  sanitize s = s.
Proof.
  intros Hk Hhd Hlast Hat. unfold sanitize.
  rewrite (runs_replaced_id s Hk), (strip_id s Hhd Hlast).
  unfold lstrip. apply lstrip_by_id.
  intros c Hc. change (u "@") with [64%N]. simpl.
  rewrite orb_false_r. apply N.eqb_neq. intros ->. contradiction.
Qed.

Lemma sanitize_shrinks (s : list N) (c : N) :
  Forall (fun c => Re.kept c = true) s ->
  hd_error s = Some c -> isspace c = true ->
  (length (sanitize s) < length s)%nat.
Proof.
  intros Hk Hhd Hc. unfold sanitize. rewrite (runs_replaced_id s Hk).
  unfold lstrip.
  eapply Nat.le_lt_trans; [apply lstrip_by_length|].
  unfold strip.
  destruct (rstrip_by_spec isspace s) as (b & Hs & _ & _).
  assert (Hlen : (length (rstrip_by isspace s) <= length s)%nat).
  { rewrite Hs at 2. rewrite length_app. lia. }
  destruct (rstrip_by isspace s) as [|c' r] eqn:Er; simpl.
  - destruct s; [discriminate | simpl; lia].
  - assert (c' = c) as ->.
    { destruct s; [discriminate|]. simpl in Hs, Hhd. congruence. }
    rewrite Hc. pose proof (lstrip_by_length isspace r). simpl in Hlen. lia.
Qed.

(** C7 (amended). The output of identity sanitization contains only
    characters of the kept classes and does not begin with [@]; applying it
    a second time gives the same result exactly when the first result does
    not begin with whitespace. *)
Theorem sanitize_output_and_idempotence (raw : list N) :
  Forall (fun c => Re.kept c = true) (sanitize raw)
  /\ hd_error (sanitize raw) <> Some 64%N
  /\ (sanitize (sanitize raw) = sanitize raw
      <-> forall c, hd_error (sanitize raw) = Some c -> isspace c = false).
Proof.
  split; [apply sanitize_kept|]. split; [apply sanitize_no_leading_at|].
  split.
  - intros Hfix c Hc. destruct (isspace c) eqn:Hs; [|reflexivity].
    pose proof (sanitize_shrinks (sanitize raw) c (sanitize_kept raw) Hc Hs).
    rewrite Hfix in H. lia.
  - intros Hhd. apply sanitize_fixed; auto.
    + apply sanitize_kept.
    + apply sanitize_no_trailing_space.
    + apply sanitize_no_leading_at.
Qed.

(** C7 as stated fails: a second application can still change the
    result. *)
Lemma sanitize_idempotence_counterexample :
  sanitize ex_at_blank = u " foo"
  /\ sanitize (sanitize ex_at_blank) = u "foo"
  /\ sanitize (sanitize ex_at_blank) <> sanitize ex_at_blank.
Proof. vm_compute. repeat split; discriminate. Qed.

(** End-to-end example 2 of the specification. *)
Example sanitize_mojibake :
  sanitize (65523%N :: u "@张三" ++ [65520%N]) = u "张三".
Proof. vm_compute. reflexivity. Qed.

(** ** The free-text view *)

(** C5. When one of the five required fields (reporter name, resolved
    timestamp, vehicle id, description, sanitized responsible person) is
    empty or absent after extraction and normalisation, [parse_fault]
    flashes the parse failure and leaves the store as it was, whatever the
    store would have answered to an INSERT. *)
Theorem incomplete_parse_persists_nothing
    (strptime : list N -> list N -> option datetime)
    (insert_error : list row -> fault_data -> option (list N))
    (raw_text : list N) (db : list row) :
  reporter_name (parse_fault_text strptime raw_text) = []
  \/ fault_time (parse_fault_text strptime raw_text) = None
  \/ vehicle_id (parse_fault_text strptime raw_text) = []
  \/ description (parse_fault_text strptime raw_text) = []
  \/ responsible_person (parse_fault_text strptime raw_text) = [] ->
  parse_fault strptime insert_error raw_text db
  = ({| flashed := [(msg_parse_failed, flash_error)]; tab := tab_quick |}, db).
Proof.
  intros H. unfold parse_fault.
  set (data := parse_fault_text strptime raw_text) in *.
  assert (Hall : forallb (truthy data) required_fields = false).
  { unfold required_fields. cbn [forallb truthy].
    destruct H as [H|[H|[H|[H|H]]]]; rewrite H; simpl;
      rewrite ?andb_false_r; reflexivity. }
  now rewrite Hall.
Qed.

Lemma incomplete_parse_persists_nothing_witness :
  parse_fault Lib.strptime (fun _ _ => None) (u "发现人员:A") []
  = ({| flashed := [(msg_parse_failed, flash_error)]; tab := tab_quick |}, []).
Proof.
  apply incomplete_parse_persists_nothing.
  right. left. vm_compute. reflexivity.
Defined.

(** The other branch: a complete parse reaches the store. *)
Lemma complete_parse_inserts
    (strptime : list N -> list N -> option datetime)
    (insert_error : list row -> fault_data -> option (list N))
    (raw_text : list N) (db : list row) :
  let data := parse_fault_text strptime raw_text in
  forallb (truthy data) required_fields = true ->
  insert_error db data = None ->
  parse_fault strptime insert_error raw_text db
  = ({| flashed := [(msg_parse_ok, flash_success)]; tab := tab_quick |},
     db ++ [new_row db data]).
Proof.
  intros data Hall Hins. unfold parse_fault. fold data.
  now rewrite Hall, Hins.
Qed.

(** End-to-end example 1 of the specification: both colons give the same
    timestamp. *)
Example free_text_timestamp :
  fault_time (parse_fault_text Lib.strptime (u "时间：2025年10月29日15：53"))
  = Some ex_datetime
  /\ fault_time (parse_fault_text Lib.strptime (u "时间:2025年10月29日15:53"))
     = Some ex_datetime.
Proof. vm_compute. split; reflexivity. Qed.

(** A complete report is stored, with the category of its description. *)
Example complete_parse_example :
  parse_fault Lib.strptime (fun _ _ => None) ex_report []
  = ({| flashed := [(msg_parse_ok, flash_success)]; tab := tab_quick |},
     [{| r_id := 1;
         r_reporter_name := u "张三";
         r_fault_time := Some ex_datetime;
         r_vehicle_id := u "AGV-07";
         r_category := cat_charging;
         r_status := status_pending;
         r_description := u "充电任务超时";
         r_solution := u "重启";
         r_resolution_log := [];
         r_responsible_person := u "李四" |}]).
Proof. vm_compute. reflexivity. Qed.

(** ** The list view *)

Lemma before_suffix_app (p s : list N) : before_suffix p (s ++ p) = Some s.
Proof.
  unfold before_suffix. rewrite rev_app_distr, after_prefix_app. simpl.
  now rewrite rev_involutive.
Qed.

Lemma prepare_count (w : list N) :
  prepare (total_count_query w) = Some (Count w).
Proof.
  unfold prepare, total_count_query. now rewrite after_prefix_app.
Qed.

Lemma prepare_faults (w : list N) :
  prepare (faults_query w) = Some (Select w true).
Proof.
  unfold prepare, faults_query.
  assert (Hc : after_prefix q_count_prefix
                 (q_select_prefix ++ w ++ q_order ++ q_limit) = None)
    by reflexivity.
  rewrite Hc, after_prefix_app.
  replace (w ++ q_order ++ q_limit) with (w ++ (q_order ++ q_limit))
    by reflexivity.
  now rewrite before_suffix_app.
Qed.

Lemma prepare_unpaginated (w : list N) :
  prepare (Spec.unpaginated_query w) = Some (Select w false).
Proof.
  unfold prepare, Spec.unpaginated_query.
  assert (Hc : after_prefix q_count_prefix (q_select_prefix ++ w ++ q_order)
               = None) by reflexivity.
  rewrite Hc, after_prefix_app.
  assert (Hl : before_suffix (q_order ++ q_limit) (w ++ q_order) = None).
  { unfold before_suffix. rewrite (rev_app_distr w q_order). reflexivity. }
  now rewrite Hl, before_suffix_app.
Qed.

Lemma split_limit_app (params : list sqlparam) (limit offset : Z) :
  split_limit (params ++ [PInt limit; PInt offset])
  = Some (params, limit, offset).
Proof.
  unfold split_limit. rewrite rev_app_distr. simpl.
  now rewrite rev_involutive.
Qed.

Section ListView.

Variable strptime : list N -> list N -> option datetime.
Variable int : list N -> option Z.
Variable where_holds : list N -> list sqlparam -> row -> bool.
Variable order_by_fault_time_desc : list row -> list row.

(** The criteria are well formed when each date given parses. *)
Lemma build_where_defined (sp : search) :
  (search_start_date sp = []
   \/ is_Some (strptime (search_start_date sp) fmt_date)) ->
  (search_end_date sp = []
   \/ is_Some (strptime (search_end_date sp) fmt_date)) ->
  is_Some (build_where strptime sp).
Proof.
  intros Hs He. unfold build_where.
  set (acc := add_clause (search_status sp) _ _ _). clearbody acc.
  assert (Hacc : exists acc',
             (if nonempty (search_start_date sp)
              then d ← strptime (search_start_date sp) fmt_date;
                   Some (acc.1 ++ [w_from], acc.2 ++ [PTime d])
              else Some acc) = Some acc').
  { destruct Hs as [->|[d ->]]; simpl; [now eexists|].
    destruct (nonempty (search_start_date sp)); now eexists. }
  destruct Hacc as [acc' ->]. cbn [mbind option_bind].
  destruct He as [->|[d ->]]; simpl; [now eexists|].
  destruct (nonempty (search_end_date sp)); now eexists.
Qed.

(** The criteria are bound as text and timestamps, which always bind. *)
Lemma build_where_bindable (sp : search) (where_clauses : list (list N))
    (params : list sqlparam) :
  build_where strptime sp = Some (where_clauses, params) ->
  forallb bindable params = true.
Proof.
  unfold build_where, add_clause.
  destruct (nonempty (search_reporter sp)),
    (nonempty (search_responsible sp)), (nonempty (search_vehicle sp)),
    (nonempty (search_status sp)), (nonempty (search_start_date sp)),
    (nonempty (search_end_date sp));
    destruct (strptime (search_start_date sp) fmt_date);
    destruct (strptime (search_end_date sp) fmt_date);
    cbn; intros [= <- <-]; reflexivity.
Qed.

Lemma forallb_bindable_limit (params : list sqlparam) (limit offset : Z) :
  forallb bindable (params ++ [PInt limit; PInt offset])
  = forallb bindable params && (in_int64 limit && in_int64 offset).
Proof. rewrite forallb_app. simpl. now rewrite andb_true_r. Qed.

Lemma execute_count_total (w : list N) (params : list sqlparam)
    (db : list row) :
  forallb bindable params = true ->
  execute_count where_holds (total_count_query w) params db
  = Some (Z.of_nat (length (List.filter (where_holds w params) db))).
Proof. intros Hb. unfold execute_count. now rewrite Hb, prepare_count. Qed.

Lemma execute_select_faults (w : list N) (params : list sqlparam)
    (limit offset : Z) (db : list row) :
  forallb bindable params = true ->
  in_int64 limit = true -> in_int64 offset = true ->
  execute_select where_holds order_by_fault_time_desc (faults_query w)
    (params ++ [PInt limit; PInt offset]) db
  = Some (limit_offset limit offset
            (order_by_fault_time_desc
               (List.filter (where_holds w params) db))).
Proof.
  intros Hb Hl Ho. unfold execute_select.
  rewrite forallb_bindable_limit, Hb, Hl, Ho.
  now rewrite prepare_faults, split_limit_app.
Qed.

Lemma execute_select_overflow (query : list N) (params : list sqlparam)
    (limit offset : Z) (db : list row) :
  in_int64 offset = false ->
  execute_select where_holds order_by_fault_time_desc query
    (params ++ [PInt limit; PInt offset]) db
  = None.
Proof.
  intros Ho. unfold execute_select.
  now rewrite forallb_bindable_limit, Ho, !andb_false_r.
Qed.

Lemma execute_select_unpaginated (w : list N) (params : list sqlparam)
    (db : list row) :
  forallb bindable params = true ->
  execute_select where_holds order_by_fault_time_desc
    (Spec.unpaginated_query w) params db
  = Some (order_by_fault_time_desc (List.filter (where_holds w params) db)).
Proof.
  intros Hb. unfold execute_select. now rewrite Hb, prepare_unpaginated.
Qed.

Lemma resolve_per_page_in_int64 (requested : Z) :
  in_int64 (resolve_per_page requested) = true.
Proof.
  destruct (allowed_per_page_cases _ (resolve_per_page_allowed requested))
    as [-> | [-> | ->]]; reflexivity.
Qed.

(** What [index] computes when the criteria are well formed and the
    offset can be bound. *)
Lemma index_view_spec (args : gmap (list N) (list N)) (db : list row)
    (where_clauses : list (list N)) (params : list sqlparam) :
  build_where strptime (search_params args) = Some (where_clauses, params) ->
  let where_sql := join w_and where_clauses in
  let per_page := resolve_per_page (get_int int args a_per_page 5) in
  let rows := List.filter (where_holds where_sql params) db in
  let pr := paginate (Z.of_nat (length rows)) per_page
              (get_int int args a_page 1) in
  in_int64 (offset pr) = true ->
  index strptime int where_holds order_by_fault_time_desc args db
  = Some {| faults :=
              limit_offset per_page (offset pr) (order_by_fault_time_desc rows);
            view_page := pr;
            per_page := per_page;
            shown_search := search_params args;
            executed :=
              [(total_count_query where_sql, params);
               (faults_query where_sql,
                params ++ [PInt per_page; PInt (offset pr)])] |}.
Proof.
  intros Hb where_sql per_page rows pr Ho. unfold index. rewrite Hb.
  cbn [mbind option_bind]. fold where_sql per_page.
  pose proof (build_where_bindable _ _ _ Hb) as Hps.
  rewrite execute_count_total by exact Hps.
  cbn [mbind option_bind]. fold rows pr.
  rewrite execute_select_faults;
    [reflexivity | exact Hps | apply resolve_per_page_in_int64 | exact Ho].
Qed.

(** [index] raises when the offset cannot be bound. *)
Lemma index_overflow (args : gmap (list N) (list N)) (db : list row)
    (where_clauses : list (list N)) (params : list sqlparam) :
  build_where strptime (search_params args) = Some (where_clauses, params) ->
  let where_sql := join w_and where_clauses in
  let per_page := resolve_per_page (get_int int args a_per_page 5) in
  let rows := List.filter (where_holds where_sql params) db in
  let pr := paginate (Z.of_nat (length rows)) per_page
              (get_int int args a_page 1) in
  in_int64 (offset pr) = false ->
  index strptime int where_holds order_by_fault_time_desc args db = None.
Proof.
  intros Hb where_sql per_page rows pr Ho. unfold index. rewrite Hb.
  cbn [mbind option_bind]. fold where_sql per_page.
  rewrite execute_count_total by exact (build_where_bindable _ _ _ Hb).
  cbn [mbind option_bind]. fold rows pr.
  now rewrite execute_select_overflow.
Qed.

(** C8. For all search criteria whose dates parse, the counting statement
    and the page statement of [index] carry the same WHERE text and the
    same parameters (the page statement adds LIMIT and OFFSET), so the
    count that pagination uses is the number of rows of the page query
    without its LIMIT and OFFSET on the same store. When the offset can be
    bound, the page shown is the LIMIT/OFFSET window of those rows;
    otherwise the view raises. *)
Theorem count_matches_unpaginated_rows (args : gmap (list N) (list N))
    (db : list row) (where_clauses : list (list N)) (params : list sqlparam) :
  (forall rows, Permutation (order_by_fault_time_desc rows) rows) ->
  build_where strptime (search_params args) = Some (where_clauses, params) ->
  let where_sql := join w_and where_clauses in
  let requested := resolve_per_page (get_int int args a_per_page 5) in
  exists total_count rows,
    execute_count where_holds (total_count_query where_sql) params db
    = Some total_count
    /\ execute_select where_holds order_by_fault_time_desc
         (Spec.unpaginated_query where_sql) params db = Some rows
    /\ total_count = Z.of_nat (length rows)
    /\ let pr := paginate total_count requested (get_int int args a_page 1) in
       if in_int64 (offset pr) then
         exists view,
           index strptime int where_holds order_by_fault_time_desc args db
           = Some view
           /\ view_page view = pr
           /\ per_page view = requested
           /\ executed view
              = [(total_count_query where_sql, params);
                 (faults_query where_sql,
                  params ++ [PInt requested; PInt (offset pr)])]
           /\ total_pages (view_page view)
              = math_ceil_div total_count requested
           /\ faults view = limit_offset requested (offset pr) rows
       else
         index strptime int where_holds order_by_fault_time_desc args db
         = None.
Proof.
  intros Hperm Hb where_sql requested.
  pose proof (build_where_bindable _ _ _ Hb) as Hps.
  eexists _, _.
  rewrite execute_count_total, execute_select_unpaginated by exact Hps.
  split; [reflexivity|]. split; [reflexivity|].
  assert (Hlen : Z.of_nat (length (List.filter (where_holds where_sql params)
                                     db))
                 = Z.of_nat
                     (length
                        (order_by_fault_time_desc
                           (List.filter (where_holds where_sql params) db)))).
  { f_equal. symmetry. apply Permutation_length, Hperm. }
  split; [exact Hlen|]. cbv zeta.
  destruct (in_int64 _) eqn:Ho.
  - pose proof (index_view_spec args db where_clauses params Hb Ho) as Hi.
    eexists. split; [exact Hi|]. repeat split.
  - exact (index_overflow args db where_clauses params Hb Ho).
Qed.

End ListView.

Lemma count_matches_unpaginated_rows_witness :
  exists total_count rows,
    execute_count ex_where_holds
      (total_count_query (join w_and Notions.where_templates))
      ex_criteria_params ex_store
    = Some total_count
    /\ execute_select ex_where_holds (@rev row)
         (Spec.unpaginated_query (join w_and Notions.where_templates))
         ex_criteria_params ex_store
       = Some rows
    /\ total_count = Z.of_nat (length rows)
    /\ exists view,
         index Lib.strptime Lib.int ex_where_holds (@rev row) ex_criteria
           ex_store
         = Some view
         /\ view_page view = paginate total_count 4 2
         /\ per_page view = 4
         /\ executed view
            = [(total_count_query (join w_and Notions.where_templates),
                ex_criteria_params);
               (faults_query (join w_and Notions.where_templates),
                ex_criteria_params ++ [PInt 4; PInt 4])]
         /\ total_pages (view_page view) = math_ceil_div total_count 4
         /\ faults view = limit_offset 4 4 rows.
Proof.
  destruct (count_matches_unpaginated_rows Lib.strptime Lib.int
              ex_where_holds (@rev row) ex_criteria ex_store
              Notions.where_templates ex_criteria_params
              (fun rows => Permutation_sym (Permutation_rev rows)) eq_refl)
    as (total_count & rows & Hc & Hs & Hlen & Hv).
  exists total_count, rows.
  split; [exact Hc|]. split; [exact Hs|]. split; [exact Hlen|].
  assert (Htc : total_count = 6) by (vm_compute in Hc; congruence).
  clear Hc Hs Hlen. rewrite Htc in Hv |- *. exact Hv.
Defined.

(** The example request counts six rows and shows the two of its second
    page. *)
Example index_criteria_page_two :
  (fun view => (total_pages (view_page view), page (view_page view),
                offset (view_page view), map r_id (faults view)))
  <$> index Lib.strptime Lib.int ex_where_holds (@rev row) ex_criteria
        ex_store
  = Some (2, 2, 4, [2; 1]).
Proof. vm_compute. reflexivity. Qed.

(** Page 0 of a one-row store: the page statement runs with OFFSET -5. *)
Example index_page_zero :
  (fun view => (page (view_page view), offset (view_page view),
                executed view !! 1%nat, faults view))
  <$> index Lib.strptime Lib.int (fun _ _ _ => true) (fun rows => rows)
        ex_page_zero [ex_row]
  = Some (0, -5, Some (faults_query w_true, [PInt 5; PInt (-5)]), [ex_row]).
Proof. vm_compute. reflexivity. Qed.

Example index_page_negative :
  (fun view => (page (view_page view), offset (view_page view),
                executed view !! 1%nat, faults view))
  <$> index Lib.strptime Lib.int (fun _ _ _ => true) (fun rows => rows)
        ex_page_negative [ex_row]
  = Some (-2, -30, Some (faults_query w_true, [PInt 10; PInt (-30)]),
          [ex_row]).
Proof. vm_compute. reflexivity. Qed.

(** C10 as stated fails for a page far below one: the offset leaves the
    range of the integers that the store binds, the statement is not run
    and the view raises. *)
Lemma page_far_below_one_counterexample :
  get_int Lib.int ex_page_far_below a_page 1 = - 2 ^ 62
  /\ page (paginate 1 5 (- 2 ^ 62)) = - 2 ^ 62
  /\ offset (paginate 1 5 (- 2 ^ 62)) = (- 2 ^ 62 - 1) * 5
  /\ in_int64 (offset (paginate 1 5 (- 2 ^ 62))) = false
  /\ index Lib.strptime Lib.int (fun _ _ _ => true) (fun rows => rows)
       ex_page_far_below [ex_row]
     = None.
Proof. vm_compute. repeat split. Qed.

(** C10 (amended). A requested page below one is not raised: it never
    exceeds the page count, the effective page is the requested one and the
    offset (p - 1) * page size is negative. When that offset is at least
    -2^63, [index] passes it as the OFFSET parameter of the page statement
    and renders the page under the requested number; below -2^63 it cannot
    be bound and [index] raises. *)
Theorem page_below_one_unclamped (p : Z) :
  p < 1 ->
  (forall total_count per_page,
      0 <= total_count -> per_page ∈ allowed_per_page ->
      let r := paginate total_count per_page p in
      p <= total_pages r
      /\ page r = p
      /\ offset r = (p - 1) * per_page
      /\ offset r < 0)
  /\ (forall strptime int where_holds order_by_fault_time_desc args db
             where_clauses params,
        build_where strptime (search_params args)
        = Some (where_clauses, params) ->
        get_int int args a_page 1 = p ->
        let requested := resolve_per_page (get_int int args a_per_page 5) in
        (- 2 ^ 63 <= (p - 1) * requested ->
         exists view,
           index strptime int where_holds order_by_fault_time_desc args db
           = Some view
           /\ per_page view = requested
           /\ page (view_page view) = p
           /\ offset (view_page view) = (p - 1) * requested
           /\ offset (view_page view) < 0
           /\ executed view !! 1%nat
              = Some (faults_query (join w_and where_clauses),
                      params ++ [PInt requested; PInt ((p - 1) * requested)]))
        /\ ((p - 1) * requested < - 2 ^ 63 ->
            index strptime int where_holds order_by_fault_time_desc args db
            = None)).
Proof.
  intros Hp. split.
  - intros total_count per_page Htc Hpp. now apply paginate_below_one.
  - intros strptime int where_holds order_by_fault_time_desc args db
      where_clauses params Hb Hpage requested.
    pose proof (index_view_spec strptime int where_holds
                  order_by_fault_time_desc args db where_clauses params Hb)
      as Hi.
    pose proof (index_overflow strptime int where_holds
                  order_by_fault_time_desc args db where_clauses params Hb)
      as Ho.
    cbv zeta in Hi, Ho. rewrite Hpage in Hi, Ho. fold requested in Hi, Ho.
    match type of Ho with
    | in_int64 (offset (paginate ?tc _ _)) = _ -> _ =>
        destruct (paginate_below_one tc requested p) as (_ & H2 & H3 & H4);
          [lia | apply resolve_per_page_allowed | exact Hp |]
    end.
    rewrite H3 in Hi, Ho. split.
    + intros Hlow. eexists. split.
      * apply Hi. unfold in_int64.
        apply andb_true_intro. split; [apply Z.leb_le | apply Z.ltb_lt]; lia.
      * cbn [view_page per_page executed]. rewrite H2, H3.
        repeat split. lia.
    + intros Hlow. apply Ho. unfold in_int64.
      apply andb_false_intro1. apply Z.leb_gt. exact Hlow.
Qed.

Lemma page_below_one_unclamped_witness :
  (page (paginate 7 5 0) = 0 /\ offset (paginate 7 5 0) < 0)
  /\ exists view,
       index Lib.strptime Lib.int (fun _ _ _ => true) (fun rows => rows)
         ex_page_zero [ex_row]
       = Some view
       /\ per_page view = 5
       /\ page (view_page view) = 0
       /\ offset (view_page view) = (0 - 1) * 5
       /\ offset (view_page view) < 0
       /\ executed view !! 1%nat
          = Some (faults_query (join w_and [w_true]),
                  [] ++ [PInt 5; PInt ((0 - 1) * 5)]).
Proof.
  destruct (page_below_one_unclamped 0 ltac:(lia)) as [H1 H2]. split.
  - destruct (H1 7 5) as (_ & Hpage & _ & Hoff);
      [lia | apply list_elem_of_In; simpl; tauto |].
    split; [exact Hpage | exact Hoff].
  - exact (proj1 (H2 Lib.strptime Lib.int (fun _ _ _ => true)
                    (fun rows => rows) ex_page_zero [ex_row] [w_true] []
                    eq_refl eq_refl)
             ltac:(vm_compute; discriminate)).
Defined.

(** * Further properties *)

(** ** The field extractor, continued *)

Lemma findall_plain_lines (lines : list (list N * N * list N * list N)) :
  Forall Notions.plain_line lines ->
  Re.findall_from true 0 (join [10%N] (map Notions.line_text lines))
  = map Notions.line_pair lines.
Proof.
  induction 1 as [|[[[l c] ws] v] lines (Hl & Hc & Hws & (a & Ha & Hsp) & Hv)
                   Hlines IH]; [reflexivity|].
  assert (Hhd : forall post x, hd_error (v ++ post) = Some x ->
                               isspace x = false).
  { intros post x. destruct v; [discriminate|]. simpl in *. congruence. }
  destruct lines as [|y lines].
  - cbn [map join Notions.line_text Notions.line_pair].
    replace (l ++ c :: ws ++ v) with (l ++ c :: ws ++ v ++ [])
      by now rewrite app_nil_r.
    rewrite findall_from_line; eauto. intros x [=].
  - change (join [10%N] (map Notions.line_text ((l, c, ws, v) :: y :: lines)))
      with ((l ++ c :: ws ++ v)
            ++ [10%N] ++ join [10%N] (map Notions.line_text (y :: lines))).
    replace ((l ++ c :: ws ++ v)
             ++ [10%N] ++ join [10%N] (map Notions.line_text (y :: lines)))
      with (l ++ c :: ws ++ v
            ++ 10%N :: join [10%N] (map Notions.line_text (y :: lines)))
      by (rewrite <- !app_assoc; simpl; now rewrite <- !app_assoc).
    rewrite findall_from_line; eauto.
    + rewrite findall_from_newline, IH. reflexivity.
    + simpl. now intros x [= <-].
Qed.

(** X1. A report made of labelled lines whose values do not start with
    whitespace is extracted line by line: the scan reports exactly the
    (label, value) pairs of the lines, in order, and the value returned for
    a label is that of its last line. *)
Theorem extractor_reads_plain_lines
    (lines : list (list N * N * list N * list N)) (l : list N) :
  Forall Notions.plain_line lines ->
  Re.findall (join [10%N] (map Notions.line_text lines))
  = map Notions.line_pair lines
  /\ get (matches (join [10%N] (map Notions.line_text lines))) l
     = default [] (Spec.last_value l (map Notions.line_pair lines)).
Proof.
  intros H. pose proof (findall_plain_lines lines H) as Hf.
  split; [exact Hf|].
  unfold get, matches. rewrite dict_lookup. unfold Re.findall.
  now rewrite Hf.
Qed.

Lemma extractor_reads_plain_lines_witness :
  get (matches (join [10%N]
                  (map Notions.line_text
                     [(L_reporter, 58%N, [32%N], u "A ");
                      (L_vehicle, 65306%N, [], u "AGV-07")])))
    L_vehicle
  = u "AGV-07".
Proof.
  refine (proj2 (extractor_reads_plain_lines
                   [(L_reporter, 58%N, [32%N], u "A ");
                    (L_vehicle, 65306%N, [], u "AGV-07")] L_vehicle _)).
  repeat constructor; try (vm_compute; set_solver);
    try (eexists; split; reflexivity); vm_compute; discriminate.
Defined.

Lemma findall_from_no_newline (s : list N) :
  Forall (fun c => c <> 10%N) s -> Re.findall_from false 0 s = [].
Proof.
  induction 1 as [|c s Hc Hs IH]; [reflexivity|].
  simpl. apply N.eqb_neq in Hc. now rewrite Hc.
Qed.

(** X2. Matching is anchored at the start of a line: a text of one line
    that does not begin with a label and a colon yields no field at all,
    wherever else a label stands in it. *)
Theorem extractor_is_line_anchored (raw_text : list N) :
  Forall (fun c => c <> 10%N) raw_text ->
  (forall l c rest,
      l ∈ Re.labels -> Re.is_colon c = true -> raw_text <> l ++ c :: rest) ->
  Re.findall raw_text = [] /\ forall l, get (matches raw_text) l = [].
Proof.
  intros Hnl Hstart.
  assert (Hf : Re.findall raw_text = []).
  { unfold Re.findall. destruct Hnl as [|c s Hc Hs]; [reflexivity|].
    cbn [Re.findall_from]. unfold Re.pattern_match.
    destruct (Re.match_label Re.labels (c :: s)) as [[l r]|] eqn:E.
    - destruct (match_label_spec _ _ _ _ E) as (Hl & c' & Hc' & Heq).
      now destruct (Hstart l c' r Hl Hc').
    - apply N.eqb_neq in Hc. rewrite Hc. now apply findall_from_no_newline. }
  split; [exact Hf|]. intros l. unfold get, matches. now rewrite Hf.
Qed.

Lemma extractor_is_line_anchored_witness :
  get (matches (u " 发现人员:A")) L_reporter = [].
Proof.
  refine (proj2 (extractor_is_line_anchored (u " 发现人员:A") _ _) L_reporter).
  - vm_compute. repeat constructor; discriminate.
  - intros l c rest Hl _. unfold Re.labels in Hl.
    repeat (apply elem_of_cons in Hl as [->|Hl]); [vm_compute; discriminate ..|].
    now apply elem_of_nil in Hl.
Defined.

Lemma labelled_line_occurs (raw l v : list N) :
  Spec.labelled_line raw l v -> Spec.occurs l raw.
Proof.
  intros (pre & c & ws & post & -> & _). exists pre, (c :: ws ++ v ++ post).
  reflexivity.
Qed.

Lemma get_absent_label (raw_text l : list N) :
  ~ Spec.occurs l raw_text -> get (matches raw_text) l = [].
Proof.
  intros Hno. unfold get, matches. rewrite dict_lookup.
  destruct (Spec.last_value l (Re.findall raw_text)) as [v|] eqn:E;
    [|reflexivity].
  destruct Hno. apply (labelled_line_occurs raw_text l v).
  apply last_value_elem in E.
  apply (findall_from_sound raw_text [] true 0 l v); [now left | exact E].
Qed.

Lemma parse_fault_rejects
    (strptime : list N -> list N -> option datetime)
    (insert_error : list row -> fault_data -> option (list N))
    (raw_text : list N) (db : list row) :
  forallb (truthy (parse_fault_text strptime raw_text)) required_fields
  = false ->
  parse_fault strptime insert_error raw_text db
  = ({| flashed := [(msg_parse_failed, flash_error)]; tab := tab_quick |}, db).
Proof. intros H. unfold parse_fault. now rewrite H. Qed.

(** X3. A raw text in which the label of the reporter, of the vehicle, of
    the description or of the responsible person does not occur at all is
    rejected as incomplete, and the store stays as it was. *)
Theorem missing_label_is_incomplete
    (strptime : list N -> list N -> option datetime)
    (insert_error : list row -> fault_data -> option (list N))
    (raw_text l : list N) (db : list row) :
  l ∈ [L_reporter; L_vehicle; L_description; L_responsible] ->
  ~ Spec.occurs l raw_text ->
  parse_fault strptime insert_error raw_text db
  = ({| flashed := [(msg_parse_failed, flash_error)]; tab := tab_quick |}, db).
Proof.
  intros Hl Hno. apply parse_fault_rejects.
  pose proof (get_absent_label raw_text l Hno) as Hg.
  unfold required_fields, parse_fault_text. cbn [forallb truthy
    reporter_name vehicle_id description responsible_person fault_time].
  repeat (apply elem_of_cons in Hl as [->|Hl]);
    [rewrite Hg; cbn; rewrite ?andb_false_r; reflexivity ..|].
  now apply elem_of_nil in Hl.
Qed.

Lemma missing_label_is_incomplete_witness :
  parse_fault Lib.strptime (fun _ _ => None)
    (u "发现人员:A" ++ 10%N :: u "时间:2025年10月29日15:53") [ex_row]
  = ({| flashed := [(msg_parse_failed, flash_error)]; tab := tab_quick |},
     [ex_row]).
Proof.
  apply (missing_label_is_incomplete Lib.strptime (fun _ _ => None) _
           L_vehicle).
  - set_solver.
  - intros H%contains_occurs. vm_compute in H. discriminate.
Defined.

(** ** Normalisation, continued *)

Lemma strip_no_surrounding_space (s : list N) :
  (forall c, hd_error (strip s) = Some c -> isspace c = false)
  /\ (forall c, last (strip s) = Some c -> isspace c = false).
Proof.
  destruct (strip_trimmed s) as (a & b & _ & _ & _ & Hhd & Hlast). now split.
Qed.

(** X4. The reporter, vehicle, description and solution that
    [parse_fault_text] returns neither begin nor end with whitespace; the
    responsible person does not end with whitespace. *)
Theorem parsed_fields_are_trimmed
    (strptime : list N -> list N -> option datetime) (raw_text s : list N) :
  s ∈ [reporter_name (parse_fault_text strptime raw_text);
       vehicle_id (parse_fault_text strptime raw_text);
       description (parse_fault_text strptime raw_text);
       solution (parse_fault_text strptime raw_text)] ->
  (forall c, hd_error s = Some c -> isspace c = false)
  /\ (forall c, last s = Some c -> isspace c = false)
  /\ (forall c,
        last (responsible_person (parse_fault_text strptime raw_text))
        = Some c -> isspace c = false).
Proof.
  intros Hs. unfold parse_fault_text in *. cbn in Hs.
  assert (Hr : forall x c, last (sanitize x) = Some c -> isspace c = false)
    by (intros x c; apply sanitize_no_trailing_space).
  repeat (apply elem_of_cons in Hs as [->|Hs]);
    [ split; [apply strip_no_surrounding_space
             | split; [apply strip_no_surrounding_space | apply Hr]] ..|].
  now apply elem_of_nil in Hs.
Qed.

Lemma parsed_fields_are_trimmed_witness :
  reporter_name (parse_fault_text Lib.strptime ex_padded_reporter) = u "A"
  /\ isspace 65%N = false.
Proof.
  split; [reflexivity|].
  refine (proj1 (proj2 (parsed_fields_are_trimmed Lib.strptime
                          ex_padded_reporter
                          (reporter_name
                             (parse_fault_text Lib.strptime
                                ex_padded_reporter)) _)) 65%N _).
  - apply list_elem_of_In. left. reflexivity.
  - reflexivity.
Defined.

(** X5. Whatever the text and the store, [parse_fault] either leaves the
    store as it was and flashes an error, or appends exactly one row and
    flashes the success message; the appended row has a reporter, a
    timestamp, a vehicle, a description and a responsible person, none of
    them empty, and the category inferred from its description. *)
Theorem free_text_rows_are_complete
    (strptime : list N -> list N -> option datetime)
    (insert_error : list row -> fault_data -> option (list N))
    (raw_text : list N) (db : list row) :
  (exists message,
      parse_fault strptime insert_error raw_text db
      = ({| flashed := [(message, flash_error)]; tab := tab_quick |}, db))
  \/ (exists r,
        parse_fault strptime insert_error raw_text db
        = ({| flashed := [(msg_parse_ok, flash_success)]; tab := tab_quick |},
           db ++ [r])
        /\ r_reporter_name r <> []
        /\ r_fault_time r <> None
        /\ r_vehicle_id r <> []
        /\ r_description r <> []
        /\ r_responsible_person r <> []
        /\ r_category r = category_of (r_description r)).
Proof.
  unfold parse_fault.
  set (data := parse_fault_text strptime raw_text).
  destruct (forallb (truthy data) required_fields) eqn:Hall; cbn [negb].
  - destruct (insert_error db data) as [e|].
    + left. now eexists.
    + right. eexists. split; [reflexivity|].
      unfold required_fields in Hall. cbn [forallb truthy] in Hall.
      repeat (apply andb_prop in Hall as [? Hall]).
      cbn [new_row r_reporter_name r_fault_time r_vehicle_id r_description
             r_responsible_person r_category].
      repeat split;
        try (intros E; rewrite E in *; discriminate).
  - left. now eexists.
Qed.

(** X6. The inferred category is always one of the listed categories, and
    it is never the mechanical fault: no description leads to it. *)
Theorem inferred_category_is_listed (desc : list N) :
  category_of desc ∈ FAULT_CATEGORIES /\ category_of desc <> cat_mechanical.
Proof.
  unfold category_of, FAULT_CATEGORIES.
  destruct (contains kw_charging desc), (contains kw_obstacle desc),
    (contains kw_localization desc), (contains kw_task desc);
    (split; [set_solver | discriminate]).
Qed.

(** X7. The strings that identity sanitization leaves unchanged are exactly
    those made of kept characters that neither begin nor end with
    whitespace and do not begin with [@]. *)
Theorem sanitize_fixed_points (s : list N) :
  sanitize s = s
  <-> Forall (fun c => Re.kept c = true) s
      /\ (forall c, hd_error s = Some c -> isspace c = false)
      /\ (forall c, last s = Some c -> isspace c = false)
      /\ hd_error s <> Some 64%N.
Proof.
  split.
  - intros Hfix.
    assert (Hk : Forall (fun c => Re.kept c = true) s)
      by (rewrite <- Hfix; apply sanitize_kept).
    repeat split.
    + exact Hk.
    + intros c Hc. destruct (isspace c) eqn:Hs; [|reflexivity].
      pose proof (sanitize_shrinks s c Hk Hc Hs) as Hlt.
      rewrite Hfix in Hlt. lia.
    + rewrite <- Hfix. apply sanitize_no_trailing_space.
    + rewrite <- Hfix. apply sanitize_no_leading_at.
  - intros (Hk & Hhd & Hlast & Hat). now apply sanitize_fixed.
Qed.

Lemma runs_replaced_length (s out : list N) :
  Spec.runs_replaced s out -> (length out <= length s)%nat.
Proof.
  induction 1 as [| | run s out Hne]; simpl; try lia.
  rewrite length_app. destruct run; [congruence | simpl; lia].
Qed.

(** X8. Identity sanitization never lengthens its input. *)
Theorem sanitize_never_longer (s : list N) :
  (length (sanitize s) <= length s)%nat.
Proof.
  unfold sanitize, lstrip, strip.
  pose proof (runs_replaced_length s _ (clean_sub_runs_replaced s)) as H1.
  pose proof (lstrip_by_length (fun c => existsb (N.eqb c) (u "@"))
                (lstrip_by isspace
                   (rstrip_by isspace (Re.clean_sub (u " ") s)))) as H2.
  pose proof (lstrip_by_length isspace
                (rstrip_by isspace (Re.clean_sub (u " ") s))) as H3.
  assert (H4 : (length (rstrip_by isspace (Re.clean_sub (u " ") s))
                <= length (Re.clean_sub (u " ") s))%nat).
  { unfold rstrip_by. rewrite length_rev.
    pose proof (lstrip_by_length isspace (rev (Re.clean_sub (u " ") s))) as H.
    now rewrite length_rev in H. }
  lia.
Qed.

(** ** The list view, continued *)

Lemma strip_blank (s : list N) :
  Forall (fun c => isspace c = true) s -> strip s = [].
Proof.
  intros H. unfold strip.
  destruct (rstrip_by_spec isspace s) as (b & Hs & _ & Hlast).
  destruct (rstrip_by isspace s) as [|c r] using rev_ind; [reflexivity|].
  rewrite last_snoc in Hlast. specialize (Hlast c eq_refl).
  rewrite Hs in H. apply Forall_app in H as [H _].
  apply Forall_app in H as [_ H]. inversion H; congruence.
Qed.

Section ListViewMore.

Variable strptime : list N -> list N -> option datetime.
Variable int : list N -> option Z.
Variable where_holds : list N -> list sqlparam -> row -> bool.
Variable order_by_fault_time_desc : list row -> list row.

Lemma build_where_clauses (sp : search) (where_clauses : list (list N))
    (params : list sqlparam) :
  build_where strptime sp = Some (where_clauses, params) ->
  where_clauses
  = w_true
    :: map snd
         (List.filter fst
            (combine (Notions.filled sp)
               [w_reporter; w_responsible; w_vehicle; w_status; w_from;
                w_to])).
Proof.
  unfold build_where, add_clause, Notions.filled.
  destruct (nonempty (search_reporter sp)),
    (nonempty (search_responsible sp)), (nonempty (search_vehicle sp)),
    (nonempty (search_status sp)), (nonempty (search_start_date sp)),
    (nonempty (search_end_date sp));
    destruct (strptime (search_start_date sp) fmt_date);
    destruct (strptime (search_end_date sp) fmt_date);
    cbn; intros [= <- <-]; reflexivity.
Qed.

Lemma build_where_params_length (sp : search)
    (where_clauses : list (list N)) (params : list sqlparam) :
  build_where strptime sp = Some (where_clauses, params) ->
  length params = length (List.filter id (Notions.filled sp)).
Proof.
  unfold build_where, add_clause, Notions.filled.
  destruct (nonempty (search_reporter sp)),
    (nonempty (search_responsible sp)), (nonempty (search_vehicle sp)),
    (nonempty (search_status sp)), (nonempty (search_start_date sp)),
    (nonempty (search_end_date sp));
    destruct (strptime (search_start_date sp) fmt_date);
    destruct (strptime (search_end_date sp) fmt_date);
    cbn; intros [= <- <-]; reflexivity.
Qed.

(** X9. Every predicate of the WHERE text is one of the seven fixed
    templates, and the text has exactly as many [?] placeholders as there
    are bound parameters. *)
Theorem where_placeholders_match_params (sp : search)
    (where_clauses : list (list N)) (params : list sqlparam) :
  build_where strptime sp = Some (where_clauses, params) ->
  Forall (fun clause => clause ∈ Notions.where_templates) where_clauses
  /\ Notions.placeholders (join w_and where_clauses) = length params.
Proof.
  intros H. rewrite (build_where_clauses sp _ _ H).
  rewrite (build_where_params_length sp _ _ H).
  unfold Notions.filled.
  destruct (nonempty (search_reporter sp)),
    (nonempty (search_responsible sp)), (nonempty (search_vehicle sp)),
    (nonempty (search_status sp)), (nonempty (search_start_date sp)),
    (nonempty (search_end_date sp));
    (split; [repeat constructor; vm_compute; tauto | reflexivity]).
Qed.

(** X10. The WHERE text depends only on which criteria are filled in, not
    on what they contain: two searches that fill in the same criteria run
    the same text with the same number of parameters. *)
Theorem where_text_depends_on_presence (sp1 sp2 : search)
    (clauses1 clauses2 : list (list N)) (params1 params2 : list sqlparam) :
  build_where strptime sp1 = Some (clauses1, params1) ->
  build_where strptime sp2 = Some (clauses2, params2) ->
  Notions.filled sp1 = Notions.filled sp2 ->
  clauses1 = clauses2 /\ length params1 = length params2.
Proof.
  intros H1 H2 Hf.
  rewrite (build_where_clauses sp1 _ _ H1), (build_where_clauses sp2 _ _ H2).
  rewrite Hf. split; [reflexivity|].
  apply build_where_params_length in H1, H2. rewrite Hf in H1. lia.
Qed.



(** X12. Criteria that are missing or consist of whitespace only are
    ignored: when the offset can be bound, the statements run with the bare
    predicate [1=1] and no parameter but LIMIT and OFFSET; otherwise the
    view raises. *)
Theorem blank_criteria_are_ignored (args : gmap (list N) (list N))
    (db : list row) :
  (forall key,
      key ∈ [u "search_reporter"; u "search_responsible"; u "search_vehicle";
             u "search_status"; u "search_start_date"; u "search_end_date"] ->
      Forall (fun c => isspace c = true) (get args key)) ->
  let pr := paginate
              (Z.of_nat (length (List.filter (where_holds w_true []) db)))
              (resolve_per_page (get_int int args a_per_page 5))
              (get_int int args a_page 1) in
  if in_int64 (offset pr) then
    exists view,
      index strptime int where_holds order_by_fault_time_desc args db
      = Some view
      /\ view_page view = pr
      /\ executed view
         = [(total_count_query w_true, []);
            (faults_query w_true,
             [PInt (per_page view); PInt (offset pr)])]
  else
    index strptime int where_holds order_by_fault_time_desc args db = None.
Proof.
  intros Hblank pr.
  assert (Hsp : search_params args
                = {| search_reporter := []; search_responsible := [];
                     search_vehicle := []; search_status := [];
                     search_start_date := []; search_end_date := [] |}).
  { unfold search_params.
    f_equal; apply strip_blank, Hblank; apply list_elem_of_In; simpl; tauto. }
  assert (Hb : build_where strptime (search_params args)
               = Some ([w_true], [])) by now rewrite Hsp.
  destruct (in_int64 (offset pr)) eqn:Ho.
  - rewrite (index_view_spec strptime int where_holds
               order_by_fault_time_desc args db _ _ Hb Ho).
    eexists. repeat split.
  - exact (index_overflow strptime int where_holds
             order_by_fault_time_desc args db _ _ Hb Ho).
Qed.

Lemma limit_offset_subseteq (limit offset : Z) (rows : list row) :
  limit_offset limit offset rows ⊆ rows.
Proof.
  unfold limit_offset. destruct (limit <? 0).
  - apply subseteq_drop.
  - etrans; [apply subseteq_take | apply subseteq_drop].
Qed.

Lemma limit_offset_length (limit offset : Z) (rows : list row) :
  0 <= limit ->
  length (limit_offset limit offset rows)
  = Nat.min (Z.to_nat limit) (length rows - Z.to_nat offset).
Proof.
  intros Hl. unfold limit_offset.
  destruct (Z.ltb_spec limit 0); [lia|].
  now rewrite length_take, length_drop.
Qed.

(** X13. A page that is shown never has more rows than the page size,
    which is 4, 5 or 10 whatever was asked for, and every row shown is a
    row of the store on which the WHERE clause holds. *)
Theorem page_rows_are_bounded_and_match (args : gmap (list N) (list N))
    (db : list row) (view : index_view) :
  (forall rows, Permutation (order_by_fault_time_desc rows) rows) ->
  index strptime int where_holds order_by_fault_time_desc args db
  = Some view ->
  exists where_clauses params,
    build_where strptime (search_params args) = Some (where_clauses, params)
    /\ per_page view ∈ allowed_per_page
    /\ Z.of_nat (length (faults view)) <= per_page view <= 10
    /\ forall r, r ∈ faults view ->
         r ∈ db /\ where_holds (join w_and where_clauses) params r = true.
Proof.
  intros Hperm Hview.
  destruct (build_where strptime (search_params args)) as [[wc ps]|] eqn:Hb;
    [|unfold index in Hview; now rewrite Hb in Hview].
  destruct (in_int64
              (offset
                 (paginate
                    (Z.of_nat
                       (length
                          (List.filter (where_holds (join w_and wc) ps) db)))
                    (resolve_per_page (get_int int args a_per_page 5))
                    (get_int int args a_page 1)))) eqn:Ho;
    [|now rewrite (index_overflow strptime int where_holds
                     order_by_fault_time_desc args db wc ps Hb Ho)
        in Hview].
  rewrite (index_view_spec strptime int where_holds
             order_by_fault_time_desc args db wc ps Hb Ho) in Hview.
  injection Hview as <-. exists wc, ps. split; [reflexivity|].
  cbn [per_page faults].
  pose proof (resolve_per_page_allowed (get_int int args a_per_page 5)) as Hpp.
  split; [exact Hpp|].
  pose proof (allowed_per_page_cases _ Hpp) as Hcases.
  split.
  - rewrite limit_offset_length by lia. lia.
  - intros r Hr. apply limit_offset_subseteq in Hr.
    rewrite (Hperm _) in Hr.
    apply list_elem_of_In, filter_In in Hr as [Hin Hw].
    split; [now apply list_elem_of_In | exact Hw].
Qed.

(** X14. When rows match and the requested page is at least one, the page
    shown is never empty: it holds the smaller of the page size and the
    number of matching rows from the offset on. The store holds fewer than
    2^63 rows, as every SQLite file does, so that the offset can be
    bound. *)
Theorem valid_page_is_not_empty (args : gmap (list N) (list N))
    (db : list row) (where_clauses : list (list N)) (params : list sqlparam) :
  (forall rows, Permutation (order_by_fault_time_desc rows) rows) ->
  Z.of_nat (length db) < 2 ^ 63 ->
  build_where strptime (search_params args) = Some (where_clauses, params) ->
  1 <= get_int int args a_page 1 ->
  List.filter (where_holds (join w_and where_clauses) params) db <> [] ->
  exists view,
    index strptime int where_holds order_by_fault_time_desc args db = Some view
    /\ faults view <> []
    /\ Z.of_nat (length (faults view))
       = Z.min (per_page view)
           (Z.of_nat
              (length
                 (List.filter (where_holds (join w_and where_clauses) params)
                    db))
            - offset (view_page view)).
Proof.
  intros Hperm Hsize Hb Hpage Hrows.
  pose proof (index_view_spec strptime int where_holds
                order_by_fault_time_desc args db _ _ Hb) as Hi.
  cbv zeta in Hi.
  pose proof (filter_length_le (where_holds (join w_and where_clauses) params)
                db) as Hle.
  set (rows := List.filter _ db) in *.
  set (pp := resolve_per_page _) in *.
  set (p := get_int int args a_page 1) in *.
  assert (Hpp : pp = 4 \/ pp = 5 \/ pp = 10)
    by apply allowed_per_page_cases, resolve_per_page_allowed.
  assert (Htc : 0 < Z.of_nat (length rows))
    by (destruct rows; simpl; [congruence | lia]).
  pose proof (math_ceil_div_bounds (Z.of_nat (length rows)) pp ltac:(lia))
    as Hc.
  assert (Hoff : 0 <= offset (paginate (Z.of_nat (length rows)) pp p)
                 < Z.of_nat (length rows)).
  { unfold paginate; cbn [offset].
    set (tp := math_ceil_div (Z.of_nat (length rows)) pp) in *.
    clearbody tp pp.
    destruct (Z.gtb_spec p tp); destruct (Z.gtb_spec tp 0); cbn;
      destruct Hpp as [-> | [-> | ->]]; lia. }
  rewrite Hi
    by (unfold in_int64; apply andb_true_intro;
        split; [apply Z.leb_le | apply Z.ltb_lt]; lia).
  eexists. split; [reflexivity|]. cbn [per_page faults view_page].
  assert (Hlen : length (limit_offset pp
                           (offset (paginate (Z.of_nat (length rows)) pp p))
                           (order_by_fault_time_desc rows))
                 = Nat.min (Z.to_nat pp)
                     (length rows
                      - Z.to_nat
                          (offset (paginate (Z.of_nat (length rows)) pp p)))).
  { rewrite limit_offset_length by lia.
    now rewrite (Permutation_length (Hperm rows)). }
  split.
  - intros E. rewrite E in Hlen. cbn [length] in Hlen. lia.
  - rewrite Hlen. lia.
Qed.

(** X15. A requested page below one whose offset is at least -2^63 shows
    the rows of the first page, since the store reads the negative OFFSET
    as zero; below -2^63 the offset cannot be bound and the view raises. *)
Theorem page_below_one_shows_first_rows (args : gmap (list N) (list N))
    (db : list row) (where_clauses : list (list N)) (params : list sqlparam) :
  build_where strptime (search_params args) = Some (where_clauses, params) ->
  get_int int args a_page 1 < 1 ->
  let requested := resolve_per_page (get_int int args a_per_page 5) in
  (- 2 ^ 63 <= (get_int int args a_page 1 - 1) * requested ->
   exists view,
     index strptime int where_holds order_by_fault_time_desc args db
     = Some view
     /\ page (view_page view) = get_int int args a_page 1
     /\ faults view
        = take (Z.to_nat (per_page view))
            (order_by_fault_time_desc
               (List.filter (where_holds (join w_and where_clauses) params)
                  db)))
  /\ ((get_int int args a_page 1 - 1) * requested < - 2 ^ 63 ->
      index strptime int where_holds order_by_fault_time_desc args db
      = None).
Proof.
  intros Hb Hpage requested.
  pose proof (index_view_spec strptime int where_holds
                order_by_fault_time_desc args db _ _ Hb) as Hi.
  pose proof (index_overflow strptime int where_holds
                order_by_fault_time_desc args db _ _ Hb) as Ho.
  cbv zeta in Hi, Ho. fold requested in Hi, Ho.
  set (rows := List.filter _ db) in *.
  assert (Hpp : requested ∈ allowed_per_page)
    by apply resolve_per_page_allowed.
  destruct (paginate_below_one (Z.of_nat (length rows)) requested
              (get_int int args a_page 1) ltac:(lia) Hpp Hpage)
    as (_ & Hp & Hoff & Hneg).
  apply allowed_per_page_cases in Hpp.
  split.
  - intros Hlow. rewrite Hi
      by (unfold in_int64; apply andb_true_intro;
          split; [apply Z.leb_le | apply Z.ltb_lt]; lia).
    eexists. split; [reflexivity|]. cbn [per_page faults view_page].
    split; [exact Hp|].
    unfold limit_offset. destruct (Z.ltb_spec requested 0); [lia|].
    replace (Z.to_nat (offset _)) with 0%nat by lia. reflexivity.
  - intros Hlow. apply Ho. unfold in_int64.
    apply andb_false_intro1. apply Z.leb_gt. lia.
Qed.

End ListViewMore.

Lemma where_placeholders_match_params_witness :
  Notions.placeholders
    (join w_and [w_true; w_reporter; w_to]) = 2%nat.
Proof.
  exact (proj2 (where_placeholders_match_params Lib.strptime
                  {| search_reporter := u "张"; search_responsible := [];
                     search_vehicle := []; search_status := [];
                     search_start_date := [];
                     search_end_date := u "2025-10-29" |}
                  [w_true; w_reporter; w_to]
                  [PText (wildcard (u "张"));
                   PTime (replace_hms ex_date 23 59 59)]
                  eq_refl)).
Defined.

Lemma where_text_depends_on_presence_witness :
  [w_true; w_reporter; w_to] = [w_true; w_reporter; w_to]
  /\ length [PText (wildcard (u "张")); PTime (replace_hms ex_date 23 59 59)]
     = length [PText (wildcard (u "李"));
               PTime (replace_hms ex_datetime 23 59 59)].
Proof.
  exact (where_text_depends_on_presence Lib.strptime
           {| search_reporter := u "张"; search_responsible := [];
              search_vehicle := []; search_status := [];
              search_start_date := []; search_end_date := u "2025-10-29" |}
           {| search_reporter := u "李"; search_responsible := [];
              search_vehicle := []; search_status := [];
              search_start_date := []; search_end_date := u "2025-10-29" |}
           _ _ _ _ eq_refl eq_refl eq_refl).
Defined.

Lemma blank_criteria_are_ignored_witness :
  exists view,
    index Lib.strptime Lib.int (fun _ _ _ => true) (fun rows => rows)
      (<[u "search_reporter" := u "  "]> ∅) [ex_row] = Some view
    /\ view_page view = paginate 1 5 1
    /\ executed view
       = [(total_count_query w_true, []);
          (faults_query w_true, [PInt (per_page view); PInt 0])].
Proof.
  refine (blank_criteria_are_ignored Lib.strptime Lib.int (fun _ _ _ => true)
            (fun rows => rows) (<[u "search_reporter" := u "  "]> ∅) [ex_row]
            _).
  intros key Hkey. apply list_elem_of_In in Hkey. simpl in Hkey.
  destruct Hkey as [<-|[<-|[<-|[<-|[<-|[<-|[]]]]]]];
    vm_compute; repeat constructor.
Defined.

Lemma page_rows_are_bounded_and_match_witness :
  exists where_clauses params,
    build_where Lib.strptime (search_params ex_criteria)
    = Some (where_clauses, params)
    /\ 4 ∈ allowed_per_page
    /\ Z.of_nat (length [ex_fault 2 status_pending;
                         ex_fault 1 status_pending]) <= 4 <= 10
    /\ forall r, r ∈ [ex_fault 2 status_pending; ex_fault 1 status_pending] ->
         r ∈ ex_store
         /\ ex_where_holds (join w_and where_clauses) params r = true.
Proof.
  exact (page_rows_are_bounded_and_match Lib.strptime Lib.int ex_where_holds
           (@rev row) ex_criteria ex_store
           {| faults := [ex_fault 2 status_pending;
                         ex_fault 1 status_pending];
              view_page := paginate 6 4 2;
              per_page := 4;
              shown_search := search_params ex_criteria;
              executed :=
                [(total_count_query (join w_and Notions.where_templates),
                  ex_criteria_params);
                 (faults_query (join w_and Notions.where_templates),
                  ex_criteria_params ++ [PInt 4; PInt 4])] |}
           (fun rows => Permutation_sym (Permutation_rev rows))
           ltac:(vm_compute; reflexivity)).
Defined.

Lemma valid_page_is_not_empty_witness :
  exists view,
    index Lib.strptime Lib.int (fun _ _ _ => true) (fun rows => rows)
      ∅ [ex_row] = Some view
    /\ faults view <> []
    /\ Z.of_nat (length (faults view))
       = Z.min (per_page view) (1 - offset (view_page view)).
Proof.
  refine (valid_page_is_not_empty Lib.strptime Lib.int
            (fun _ _ _ => true) (fun rows => rows) ∅ [ex_row] [w_true] []
            (fun rows => Permutation_refl rows) _ eq_refl _ _).
  - vm_compute. reflexivity.
  - vm_compute. discriminate.
  - discriminate.
Defined.

Lemma page_below_one_shows_first_rows_witness :
  exists view,
    index Lib.strptime Lib.int (fun _ _ _ => true) (fun rows => rows)
      ex_page_zero [ex_row] = Some view
    /\ page (view_page view) = 0
    /\ faults view = take (Z.to_nat (per_page view)) [ex_row].
Proof.
  refine (proj1 (page_below_one_shows_first_rows Lib.strptime Lib.int
                   (fun _ _ _ => true) (fun rows => rows) ex_page_zero
                   [ex_row] [w_true] [] eq_refl _) _).
  - vm_compute. reflexivity.
  - vm_compute. discriminate.
Defined.

(** ** The statistics view, continued *)

Lemma resolve_group_by_allowed (arg : option (list N)) :
  (resolve_group_by arg).1 ∈ allowed_group_by_columns.
Proof.
  unfold resolve_group_by. case_bool_decide as H; [exact H|].
  apply list_elem_of_In. simpl. tauto.
Qed.

Lemma placeholders_app (a b : list N) :
  Notions.placeholders (a ++ b)
  = (Notions.placeholders a + Notions.placeholders b)%nat.
Proof.
  unfold Notions.placeholders. now rewrite List.filter_app, length_app.
Qed.

Lemma statistics_params_length
    (strptime : list N -> list N -> option datetime)
    (start_date_str end_date_str : option (list N)) (params : list sqlparam) :
  statistics_params strptime start_date_str end_date_str = Some params ->
  length params
  = ((if given start_date_str then 1 else 0)
     + (if given end_date_str then 1 else 0))%nat.
Proof.
  unfold statistics_params.
  destruct (given start_date_str), (given end_date_str);
    destruct (strptime (default [] start_date_str) fmt_date);
    destruct (strptime (default [] end_date_str) fmt_date);
    cbn; intros [= <-]; reflexivity.
Qed.

(** X16. Whatever dimension is asked for, [statistics] groups by one of
    the six listed dimensions, and it flashes a message exactly when a
    dimension was given that is not listed; a request without a dimension
    is grouped by category without a message. *)
Theorem grouping_dimension_is_listed
    (strptime : list N -> list N -> option datetime)
    (execute_grouped :
       list N -> list sqlparam -> list row -> list (option (list N) * Z))
    (group_by_arg start_date_str end_date_str : option (list N))
    (db : list row) (view : statistics_view) :
  statistics strptime execute_grouped group_by_arg start_date_str
    end_date_str db = Some view ->
  current_group_by view ∈ allowed_group_by_columns
  /\ (stats_flashed view <> []
      <-> exists s, group_by_arg = Some s /\ s ∉ allowed_group_by_columns)
  /\ (group_by_arg = None ->
      current_group_by view = g_category /\ stats_flashed view = []).
Proof.
  unfold statistics.
  pose proof (resolve_group_by_allowed group_by_arg) as Hin.
  assert (Hfl : (resolve_group_by group_by_arg).2 <> []
                <-> exists s, group_by_arg = Some s
                              /\ s ∉ allowed_group_by_columns).
  { unfold resolve_group_by. case_bool_decide as H; cbn; split.
    - congruence.
    - intros (s & -> & Hs). now destruct Hs.
    - intros _. destruct group_by_arg as [s|]; [now exists s|].
      destruct H. apply list_elem_of_In. simpl. tauto.
    - discriminate. }
  assert (Hnone : group_by_arg = None ->
                  resolve_group_by group_by_arg = (g_category, []))
    by now intros ->.
  destruct (resolve_group_by group_by_arg) as [g fl].
  destruct (statistics_params strptime start_date_str end_date_str);
    [|discriminate].
  cbn in *. intros [= <-]. cbn.
  split; [exact Hin|]. split; [exact Hfl|].
  intros E. specialize (Hnone E). injection Hnone as -> ->. now split.
Qed.

Lemma grouping_dimension_is_listed_witness :
  exists view,
    statistics Lib.strptime (fun _ _ _ => []) (Some (u "dropTable")) None
      None [] = Some view
    /\ current_group_by view ∈ allowed_group_by_columns.
Proof.
  eexists. split; [reflexivity|].
  exact (proj1 (grouping_dimension_is_listed Lib.strptime (fun _ _ _ => [])
                  (Some (u "dropTable")) None None [] _ eq_refl)).
Defined.

(** X17. The grouped statement has exactly as many [?] placeholders as
    bound parameters: one for each date filled in. *)
Theorem statistics_placeholders_match_params
    (strptime : list N -> list N -> option datetime)
    (execute_grouped :
       list N -> list sqlparam -> list row -> list (option (list N) * Z))
    (group_by_arg start_date_str end_date_str : option (list N))
    (db : list row) (view : statistics_view) :
  statistics strptime execute_grouped group_by_arg start_date_str
    end_date_str db = Some view ->
  Notions.placeholders (stats_query view) = length (stats_params view)
  /\ length (stats_params view)
     = ((if given start_date_str then 1 else 0)
        + (if given end_date_str then 1 else 0))%nat.
Proof.
  unfold statistics.
  pose proof (resolve_group_by_allowed group_by_arg) as Hin.
  destruct (resolve_group_by group_by_arg) as [g fl]. cbn in Hin.
  destruct (statistics_params strptime start_date_str end_date_str)
    as [params|] eqn:Hp; [|discriminate].
  cbn [mbind option_bind]. intros [= <-]. cbn [stats_query stats_params].
  rewrite (statistics_params_length _ _ _ _ Hp). split; [|reflexivity].
  apply allowed_group_by_dimension in Hin as [d ->].
  rewrite statistics_query_hand_built.
  destruct d, (given start_date_str), (given end_date_str);
    vm_compute; reflexivity.
Qed.

Lemma statistics_placeholders_match_params_witness :
  exists view,
    statistics Lib.strptime (fun _ _ _ => []) (Some g_by_date)
      (Some (u "2025-10-01")) (Some (u "2025-10-29")) [] = Some view
    /\ Notions.placeholders (stats_query view) = 2%nat.
Proof.
  eexists. split; [reflexivity|].
  exact (proj1 (statistics_placeholders_match_params Lib.strptime
                  (fun _ _ _ => []) (Some g_by_date)
                  (Some (u "2025-10-01")) (Some (u "2025-10-29")) [] _
                  eq_refl)).
Defined.

(** X18. [statistics] raises exactly when a start or end date that is
    given and not empty does not parse as a date; the dimension never
    makes it raise. *)
Theorem statistics_raises_iff_bad_date
    (strptime : list N -> list N -> option datetime)
    (execute_grouped :
       list N -> list sqlparam -> list row -> list (option (list N) * Z))
    (group_by_arg start_date_str end_date_str : option (list N))
    (db : list row) :
  statistics strptime execute_grouped group_by_arg start_date_str
    end_date_str db = None
  <-> (given start_date_str = true
       /\ strptime (default [] start_date_str) fmt_date = None)
      \/ (given end_date_str = true
          /\ strptime (default [] end_date_str) fmt_date = None).
Proof.
  unfold statistics, statistics_params.
  destruct (resolve_group_by group_by_arg) as [g fl].
  destruct (given start_date_str), (given end_date_str);
    destruct (strptime (default [] start_date_str) fmt_date);
    destruct (strptime (default [] end_date_str) fmt_date);
    cbn; split; intros H; try discriminate; try reflexivity; auto;
    destruct H as [[? ?]|[? ?]]; discriminate.
Qed.

(** ** The structured submission *)

Section Submission.

Variable strptime : list N -> list N -> option datetime.
Variable insert_error : list row -> fault_data -> option (list N).
Variable str_of_raised : raised -> list N.

(** X19. The structured submission stores the form values as they are:
    when the seven fields are present, the time parses and the store
    accepts the row, one row is appended with exactly the submitted texts;
    nothing is trimmed, sanitized or checked, and the category is the one
    submitted, whatever the description says. *)
Theorem structured_submission_stores_verbatim
    (form : gmap (list N) (list N)) (db : list row)
    (reporter fault_time_str vehicle cat desc sol resp : list N)
    (t : datetime) :
  form !! f_reporter_name = Some reporter ->
  form !! f_fault_time = Some fault_time_str ->
  form !! f_vehicle_id = Some vehicle ->
  form !! f_category = Some cat ->
  form !! f_description = Some desc ->
  form !! f_solution = Some sol ->
  form !! f_responsible_person = Some resp ->
  strptime fault_time_str fmt_form = Some t ->
  insert_error db
    {| reporter_name := reporter; vehicle_id := vehicle; description := desc;
       solution := sol; responsible_person := resp; fault_time := Some t;
       category := cat |} = None ->
  exists r,
    index_post strptime insert_error str_of_raised form db
    = ({| flashed := [(msg_submitted, flash_success)];
          tab := tab_detailed |}, db ++ [r])
    /\ r_reporter_name r = reporter
    /\ r_fault_time r = Some t
    /\ r_vehicle_id r = vehicle
    /\ r_category r = cat
    /\ r_description r = desc
    /\ r_solution r = sol
    /\ r_responsible_person r = resp.
Proof.
  intros H1 H2 H3 H4 H5 H6 H7 Ht Hins.
  unfold index_post, submitted, form_get.
  rewrite H1, H3, H4, H5, H6, H7, H2. cbn [try_bind].
  rewrite Ht. cbn [try_bind]. rewrite Hins.
  eexists. split; [reflexivity|]. cbn. repeat split.
Qed.

(** X20. The structured submission never raises: it always redirects to
    the detailed tab with exactly one message, and either the store is as
    it was and the message is the failure message followed by the text of
    what was raised (a missing field, a time that does not parse, or the
    store's error), or one row was appended and the message is the
    success message. *)
Theorem structured_submission_outcomes
    (form : gmap (list N) (list N)) (db : list row) :
  tab (index_post strptime insert_error str_of_raised form db).1 = tab_detailed
  /\ ((exists e,
          index_post strptime insert_error str_of_raised form db
          = ({| flashed := [(msg_submit_failed ++ str_of_raised e,
                             flash_error)];
                tab := tab_detailed |}, db)
          /\ ((exists key, e = KeyError key /\ form !! key = None)
              \/ (exists text,
                    e = ValueError text fmt_form
                    /\ form !! f_fault_time = Some text
                    /\ strptime text fmt_form = None)
              \/ (exists message, e = StoreError message)))
      \/ (exists r,
            index_post strptime insert_error str_of_raised form db
            = ({| flashed := [(msg_submitted, flash_success)];
                  tab := tab_detailed |}, db ++ [r]))).
Proof.
  unfold index_post, submitted, form_get.
  destruct (form !! f_reporter_name) eqn:E1; cbn [try_bind];
    [|split; [reflexivity|]; left; eexists; split; [reflexivity|];
      left; eauto].
  destruct (form !! f_fault_time) as [ts|] eqn:E2; cbn [try_bind];
    [|split; [reflexivity|]; left; eexists; split; [reflexivity|];
      left; eauto].
  destruct (strptime ts fmt_form) eqn:Et; cbn [try_bind];
    [|split; [reflexivity|]; left; eexists; split; [reflexivity|];
      right; left; eauto].
  destruct (form !! f_vehicle_id) eqn:E3; cbn [try_bind];
    [|split; [reflexivity|]; left; eexists; split; [reflexivity|];
      left; eauto].
  destruct (form !! f_category) eqn:E4; cbn [try_bind];
    [|split; [reflexivity|]; left; eexists; split; [reflexivity|];
      left; eauto].
  destruct (form !! f_description) eqn:E5; cbn [try_bind];
    [|split; [reflexivity|]; left; eexists; split; [reflexivity|];
      left; eauto].
  destruct (form !! f_solution) eqn:E6; cbn [try_bind];
    [|split; [reflexivity|]; left; eexists; split; [reflexivity|];
      left; eauto].
  destruct (form !! f_responsible_person) eqn:E7; cbn [try_bind];
    [|split; [reflexivity|]; left; eexists; split; [reflexivity|];
      left; eauto].
  destruct (insert_error db _) eqn:Ei.
  - split; [reflexivity|]. left. eexists. split; [reflexivity|].
    right. right. eauto.
  - split; [reflexivity|]. right. eexists. reflexivity.
Qed.

End Submission.

Lemma structured_submission_stores_verbatim_witness :
  exists r,
    index_post (fun _ _ => Some ex_datetime) (fun _ _ => None) (fun _ => [])
      (<[f_reporter_name := []]>
         (<[f_fault_time := u "x"]>
            (<[f_vehicle_id := u " V "]>
               (<[f_category := u "任意"]>
                  (<[f_description := u "充电"]>
                     (<[f_solution := []]>
                        (<[f_responsible_person := u "@@"]> ∅)))))))
      []
    = ({| flashed := [(msg_submitted, flash_success)];
          tab := tab_detailed |}, [] ++ [r])
    /\ r_reporter_name r = []
    /\ r_fault_time r = Some ex_datetime
    /\ r_vehicle_id r = u " V "
    /\ r_category r = u "任意"
    /\ r_description r = u "充电"
    /\ r_solution r = []
    /\ r_responsible_person r = u "@@".
Proof.
  apply (structured_submission_stores_verbatim
           (fun _ _ => Some ex_datetime) (fun _ _ => None) (fun _ => [])
           _ [] [] (u "x")); reflexivity.
Defined.

(** ** [edit_fault] *)

Lemma update_fault_Forall2 (status log : list N) (fault_id : Z)
    (db : list row) :
  Forall2 (fun r r' =>
             Notions.same_report r r'
             /\ (r_id r <> fault_id -> r' = r)
             /\ (r_id r = fault_id ->
                 r_status r' = status /\ r_resolution_log r' = log))
    db (update_fault status log fault_id db).
Proof.
  induction db as [|r db IH]; simpl; constructor; [|exact IH].
  destruct (Z.eqb_spec (r_id r) fault_id) as [E|E].
  - repeat split; cbn; congruence.
  - repeat split; congruence.
Qed.

(** X21. Whatever the method, the id and the form, [edit_fault] keeps the
    rows of the store in place and leaves every descriptive field of every
    row (id, reporter, time, vehicle, category, description, solution,
    responsible person) as it was; rows with another id are not touched at
    all. *)
Theorem edit_keeps_reports (m : method) (fault_id : Z)
    (form : gmap (list N) (list N)) (db : list row) :
  Forall2 (fun r r' =>
             Notions.same_report r r' /\ (r_id r <> fault_id -> r' = r))
    db (edit_fault m fault_id form db).2.
Proof.
  assert (Hsame : Forall2 (fun r r' =>
                             Notions.same_report r r'
                             /\ (r_id r <> fault_id -> r' = r)) db db).
  { induction db; constructor; auto. repeat split. }
  unfold edit_fault. destruct m.
  - destruct (in_int64 fault_id); [|exact Hsame].
    destruct (select_fault fault_id db); exact Hsame.
  - destruct (form !! f_status) as [status|]; [|exact Hsame].
    destruct (form !! f_resolution_log) as [log|]; [|exact Hsame].
    destruct (in_int64 fault_id); [|exact Hsame].
    cbn. eapply Forall2_impl; [apply update_fault_Forall2|].
    cbn. intros r r' (H1 & H2 & _). now split.
Qed.

Lemma select_fault_update (status log : list N) (fault_id : Z)
    (db : list row) (r : row) :
  select_fault fault_id db = Some r ->
  select_fault fault_id (update_fault status log fault_id db)
  = Some {| r_id := r_id r;
            r_reporter_name := r_reporter_name r;
            r_fault_time := r_fault_time r;
            r_vehicle_id := r_vehicle_id r;
            r_category := r_category r;
            r_status := status;
            r_description := r_description r;
            r_solution := r_solution r;
            r_resolution_log := log;
            r_responsible_person := r_responsible_person r |}.
Proof.
  unfold select_fault. induction db as [|x db IH]; simpl; [discriminate|].
  destruct (Z.eqb_spec (r_id x) fault_id) as [E|E]; simpl.
  - intros [= ->]. apply Z.eqb_eq in E. now rewrite E.
  - apply Z.eqb_neq in E. rewrite E. exact IH.
Qed.

(** X22. Edit, then read: after a POST with a status and a resolution log
    for the id of a stored row, a GET for that id shows the row with the
    posted status and log and every other field as before. The status is
    stored whatever it is; it is not checked against the listed
    statuses. *)
Theorem edit_then_get (fault_id : Z) (form form' : gmap (list N) (list N))
    (db : list row) (status log : list N) (r : row) :
  form !! f_status = Some status ->
  form !! f_resolution_log = Some log ->
  (edit_fault GET fault_id form' db).1 = Edit_page r ->
  (edit_fault POST fault_id form db).1
  = Edit_redirect [(msg_updated, flash_success)]
  /\ (edit_fault GET fault_id form' (edit_fault POST fault_id form db).2).1
     = Edit_page
         {| r_id := r_id r;
            r_reporter_name := r_reporter_name r;
            r_fault_time := r_fault_time r;
            r_vehicle_id := r_vehicle_id r;
            r_category := r_category r;
            r_status := status;
            r_description := r_description r;
            r_solution := r_solution r;
            r_resolution_log := log;
            r_responsible_person := r_responsible_person r |}.
Proof.
  intros Hs Hl Hget. unfold edit_fault in *. rewrite Hs, Hl.
  destruct (in_int64 fault_id); [|discriminate]. cbn [fst snd].
  split; [reflexivity|].
  destruct (select_fault fault_id db) as [r0|] eqn:E; [|discriminate].
  cbn [fst] in Hget. injection Hget as ->.
  now rewrite (select_fault_update status log fault_id db r E).
Qed.

Lemma edit_then_get_witness :
  (edit_fault GET 1 ∅
     (edit_fault POST 1
        (<[f_status := u "whatever"]> (<[f_resolution_log := u "done"]> ∅))
        [ex_row]).2).1
  = Edit_page
      {| r_id := 1; r_reporter_name := u "A"; r_fault_time := None;
         r_vehicle_id := u "V"; r_category := cat_other;
         r_status := u "whatever"; r_description := []; r_solution := [];
         r_resolution_log := u "done"; r_responsible_person := u "B" |}.
Proof.
  exact (proj2 (edit_then_get 1
                  (<[f_status := u "whatever"]>
                     (<[f_resolution_log := u "done"]> ∅))
                  ∅ [ex_row] (u "whatever") (u "done") ex_row
                  eq_refl eq_refl eq_refl)).
Defined.

Lemma update_fault_absent (status log : list N) (fault_id : Z)
    (db : list row) :
  (forall r, r ∈ db -> r_id r <> fault_id) ->
  update_fault status log fault_id db = db.
Proof.
  induction db as [|x db IH]; intros H; simpl; [reflexivity|].
  assert (Hx : r_id x <> fault_id) by (apply H; left).
  apply Z.eqb_neq in Hx. rewrite Hx. f_equal. apply IH.
  intros r Hr. apply H. now right.
Qed.

Lemma in_int64_spec (z : Z) :
  in_int64 z = true <-> - 2 ^ 63 <= z < 2 ^ 63.
Proof. unfold in_int64. rewrite andb_true_iff, Z.leb_le, Z.ltb_lt. tauto. Qed.

(** X23. An edit of an id that no row has: when the id fits the 64-bit
    integers of the store, the POST still answers with the success message
    and leaves the store as it was, while the GET answers that the fault
    was not found; an id outside that range cannot be bound, and both
    requests raise and leave the store as it was. *)
Theorem edit_of_unknown_id (fault_id : Z) (form : gmap (list N) (list N))
    (db : list row) (status log : list N) :
  (forall r, r ∈ db -> r_id r <> fault_id) ->
  form !! f_status = Some status ->
  form !! f_resolution_log = Some log ->
  (- 2 ^ 63 <= fault_id < 2 ^ 63 ->
   edit_fault POST fault_id form db
   = (Edit_redirect [(msg_updated, flash_success)], db)
   /\ edit_fault GET fault_id form db = (Edit_not_found, db))
  /\ (~ - 2 ^ 63 <= fault_id < 2 ^ 63 ->
      edit_fault POST fault_id form db = (Edit_overflow, db)
      /\ edit_fault GET fault_id form db = (Edit_overflow, db)).
Proof.
  intros Hno Hs Hl. unfold edit_fault. rewrite Hs, Hl.
  pose proof (in_int64_spec fault_id) as Hr.
  destruct (in_int64 fault_id).
  - split; [intros _ | intros H; now destruct H; apply Hr].
    rewrite (update_fault_absent _ _ _ _ Hno). split; [reflexivity|].
    destruct (select_fault fault_id db) as [r|] eqn:E; [|reflexivity].
    unfold select_fault in E. apply find_some in E as [Hin Hid].
    apply Z.eqb_eq in Hid.
    now destruct (Hno r (proj2 (list_elem_of_In _ _) Hin)).
  - split; [|now intros _].
    intros H. apply Hr in H. discriminate.
Qed.

Lemma edit_of_unknown_id_witness :
  (edit_fault POST 7
     (<[f_status := status_resolved]> (<[f_resolution_log := []]> ∅)) [ex_row]
   = (Edit_redirect [(msg_updated, flash_success)], [ex_row])
   /\ edit_fault GET 7
        (<[f_status := status_resolved]> (<[f_resolution_log := []]> ∅))
        [ex_row]
      = (Edit_not_found, [ex_row]))
  /\ (edit_fault POST (2 ^ 63)
        (<[f_status := status_resolved]> (<[f_resolution_log := []]> ∅))
        [ex_row]
      = (Edit_overflow, [ex_row])
      /\ edit_fault GET (2 ^ 63)
           (<[f_status := status_resolved]> (<[f_resolution_log := []]> ∅))
           [ex_row]
         = (Edit_overflow, [ex_row])).
Proof.
  split.
  - refine (proj1 (edit_of_unknown_id 7
                     (<[f_status := status_resolved]>
                        (<[f_resolution_log := []]> ∅))
                     [ex_row] status_resolved [] _ eq_refl eq_refl) _).
    + intros r Hr. apply list_elem_of_In in Hr. destruct Hr as [<-|[]].
      discriminate.
    + lia.
  - refine (proj2 (edit_of_unknown_id (2 ^ 63)
                     (<[f_status := status_resolved]>
                        (<[f_resolution_log := []]> ∅))
                     [ex_row] status_resolved [] _ eq_refl eq_refl) _).
    + intros r Hr. apply list_elem_of_In in Hr. destruct Hr as [<-|[]].
      discriminate.
    + lia.
Defined.

Lemma update_fault_twice (s1 l1 s2 l2 : list N) (fault_id : Z)
    (db : list row) :
  update_fault s2 l2 fault_id (update_fault s1 l1 fault_id db)
  = update_fault s2 l2 fault_id db.
Proof.
  unfold update_fault. rewrite map_map. apply map_ext. intros r.
  destruct (Z.eqb_spec (r_id r) fault_id) as [E|E]; cbn.
  - apply Z.eqb_eq in E. now rewrite E.
  - apply Z.eqb_neq in E. now rewrite E.
Qed.

(** X24. The last edit wins: two POSTs for the same id leave the store as
    the second alone would, and a POST that lacks a form field changes
    nothing. *)
Theorem edit_last_write_wins (fault_id : Z)
    (form1 form2 : gmap (list N) (list N)) (db : list row) :
  (is_Some (form2 !! f_status) /\ is_Some (form2 !! f_resolution_log) ->
   (edit_fault POST fault_id form2 (edit_fault POST fault_id form1 db).2).2
   = (edit_fault POST fault_id form2 db).2)
  /\ (form2 !! f_status = None \/ form2 !! f_resolution_log = None ->
      exists key,
        edit_fault POST fault_id form2 db = (Edit_bad_request key, db)
        /\ form2 !! key = None).
Proof.
  split.
  - intros [[s2 Hs2] [l2 Hl2]]. unfold edit_fault. rewrite Hs2, Hl2.
    destruct (form1 !! f_status) as [s1|]; [|reflexivity].
    destruct (form1 !! f_resolution_log) as [l1|]; [|reflexivity].
    destruct (in_int64 fault_id); [|reflexivity].
    cbn. apply update_fault_twice.
  - unfold edit_fault. intros [H|H].
    + rewrite H. now exists f_status.
    + destruct (form2 !! f_status) eqn:E; [|now exists f_status].
      rewrite H. now exists f_resolution_log.
Qed.

(** ** The export: encoding *)

Lemma N_add_sub_l (k a : N) : (k + a - k = a)%N.
Proof. lia. Qed.

Lemma utf8_char_decode (c : N) (b rest : list N) :
  utf8_char c = Some b ->
  utf8_go 0 0 (b ++ rest) = c :: utf8_go 0 0 rest.
Proof.
  unfold utf8_char.
  destruct (N.ltb_spec c 128) as [H1|H1].
  { intros [= <-]. cbn [app utf8_go].
    destruct (N.ltb_spec c 128); [reflexivity | lia]. }
  destruct (N.ltb_spec c 2048) as [H2|H2].
  { intros [= <-]. cbn [app utf8_go].
    pose proof (N.Div0.div_lt_upper_bound c 64 32 ltac:(lia)) as Hd.
    pose proof (N.div_mod c 64 ltac:(lia)) as Hm.
    pose proof (N.mod_lt c 64 ltac:(lia)) as Hlt.
    destruct (N.ltb_spec (192 + c / 64) 128); [lia|].
    destruct (N.ltb_spec (192 + c / 64) 224); [|lia].
    f_equal. rewrite !N_add_sub_l. lia. }
  destruct (N.ltb_spec c 65536) as [H3|H3].
  { destruct ((55296 <=? c)%N && (c <=? 57343)%N); [discriminate|].
    intros [= <-]. cbn [app utf8_go].
    pose proof (N.Div0.div_lt_upper_bound c 4096 16 ltac:(lia)) as Hd.
    pose proof (N.div_mod c 64 ltac:(lia)) as Hm.
    pose proof (N.mod_lt c 64 ltac:(lia)) as Hlt.
    pose proof (N.div_mod (c / 64) 64 ltac:(lia)) as Hm2.
    pose proof (N.mod_lt (c / 64) 64 ltac:(lia)) as Hlt2.
    assert (Hdd : (c / 64 / 64 = c / 4096)%N)
      by (rewrite N.Div0.div_div; reflexivity).
    destruct (N.ltb_spec (224 + c / 4096) 128); [lia|].
    destruct (N.ltb_spec (224 + c / 4096) 224); [lia|].
    destruct (N.ltb_spec (224 + c / 4096) 240); [|lia].
    f_equal. rewrite !N_add_sub_l. lia. }
  destruct (N.ltb_spec c 1114112) as [H4|H4]; [|discriminate].
  intros [= <-]. cbn [app utf8_go].
  pose proof (N.Div0.div_lt_upper_bound c 262144 8 ltac:(lia)) as Hd.
  pose proof (N.div_mod c 64 ltac:(lia)) as Hm.
  pose proof (N.mod_lt c 64 ltac:(lia)) as Hlt.
  pose proof (N.div_mod (c / 64) 64 ltac:(lia)) as Hm2.
  pose proof (N.mod_lt (c / 64) 64 ltac:(lia)) as Hlt2.
  pose proof (N.div_mod (c / 4096) 64 ltac:(lia)) as Hm3.
  pose proof (N.mod_lt (c / 4096) 64 ltac:(lia)) as Hlt3.
  assert (Hdd : (c / 64 / 64 = c / 4096)%N)
    by (rewrite N.Div0.div_div; reflexivity).
  assert (Hddd : (c / 4096 / 64 = c / 262144)%N)
    by (rewrite N.Div0.div_div; reflexivity).
  destruct (N.ltb_spec (240 + c / 262144) 128); [lia|].
  destruct (N.ltb_spec (240 + c / 262144) 224); [lia|].
  destruct (N.ltb_spec (240 + c / 262144) 240); [lia|].
  f_equal. rewrite !N_add_sub_l. lia.
Qed.

Lemma utf8_encode_decode (s b : list N) :
  utf8_encode s = Some b -> utf8_go 0 0 b = s.
Proof.
  revert b. induction s as [|c s IH]; intros b; cbn [utf8_encode].
  - now intros [= <-].
  - destruct (utf8_char c) as [bc|] eqn:Ec; [|discriminate].
    destruct (utf8_encode s) as [bs|]; [|discriminate].
    cbn. intros [= <-]. rewrite (utf8_char_decode c bc bs Ec).
    f_equal. now apply IH.
Qed.

Lemma utf8_char_defined (c : N) :
  is_Some (utf8_char c) <-> Notions.scalar c.
Proof.
  unfold utf8_char, Notions.scalar.
  destruct (N.ltb_spec c 128); [split; [lia | eauto]|].
  destruct (N.ltb_spec c 2048); [split; [lia | eauto]|].
  destruct (N.ltb_spec c 65536).
  - destruct (N.leb_spec 55296 c), (N.leb_spec c 57343); cbn;
      (split; [intros [x Hx]; try discriminate; lia | intros; try lia; eauto]).
  - destruct (N.ltb_spec c 1114112); (split; [intros [x Hx]; try discriminate; lia | intros; try lia; eauto]).
Qed.

Lemma utf8_encode_defined (s : list N) :
  is_Some (utf8_encode s) <-> Forall Notions.scalar s.
Proof.
  induction s as [|c s IH]; cbn [utf8_encode].
  - split; [constructor | eauto].
  - rewrite Forall_cons, <- IH, <- utf8_char_defined.
    destruct (utf8_char c), (utf8_encode s); cbn;
      (split;
       [intros [x Hx]; try discriminate; split; eauto
       | intros [[x Hx] [y Hy]]; try discriminate; eauto]).
Qed.

(** X25. [encode('utf-8-sig')] succeeds exactly when every character can be
    encoded (none is a surrogate); its result is the byte order mark
    followed by bytes that decode back to the text. *)
Theorem utf8_sig_round_trip (s : list N) :
  (is_Some (encode_utf8_sig s) <-> Forall Notions.scalar s)
  /\ forall b,
       encode_utf8_sig s = Some b ->
       exists b', b = [239%N; 187%N; 191%N] ++ b' /\ utf8_go 0 0 b' = s.
Proof.
  split.
  - rewrite <- utf8_encode_defined. unfold encode_utf8_sig.
    destruct (utf8_encode s); cbn;
      (split; intros [x Hx]; try discriminate; eauto).
  - intros b. unfold encode_utf8_sig.
    destruct (utf8_encode s) as [b'|] eqn:E; [|discriminate].
    cbn. intros [= <-]. exists b'. split; [reflexivity|].
    now apply utf8_encode_decode.
Qed.

(** ** The export: the tabular text *)

Lemma csv_run_plain (f : list N) (st : Csv.state) :
  Csv.at_mode st = Csv.Plain -> existsb csv_special f = false ->
  fold_left Csv.step f st
  = {| Csv.records := Csv.records st; Csv.fields := Csv.fields st;
       Csv.cur := Csv.cur st ++ f; Csv.at_mode := Csv.Plain |}.
Proof.
  revert st. induction f as [|c f IH]; intros st Hm Hf; cbn [fold_left].
  - destruct st; cbn in *; subst. now rewrite app_nil_r.
  - cbn [existsb] in Hf. apply orb_false_iff in Hf as [Hc Hf].
    assert (Hstep : Csv.step st c = Csv.add st c Csv.Plain).
    { unfold csv_special in Hc.
      repeat (apply orb_false_iff in Hc as [Hc ?]).
      unfold Csv.step. rewrite Hm.
      destruct (c =? 34)%N, (c =? 44)%N, (c =? 13)%N; try discriminate.
      reflexivity. }
    rewrite Hstep, IH; [|reflexivity | exact Hf].
    cbn. now rewrite <- app_assoc.
Qed.

Lemma csv_run_quoted (f : list N) (st : Csv.state) :
  Csv.at_mode st = Csv.Quoted ->
  fold_left Csv.step
    (flat_map (fun c => if (c =? 34)%N then [34%N; 34%N] else [c]) f) st
  = {| Csv.records := Csv.records st; Csv.fields := Csv.fields st;
       Csv.cur := Csv.cur st ++ f; Csv.at_mode := Csv.Quoted |}.
Proof.
  revert st. induction f as [|c f IH]; intros st Hm; cbn [flat_map].
  - destruct st; cbn in *; subst. now rewrite app_nil_r.
  - rewrite fold_left_app.
    assert (Hstep : fold_left Csv.step
                      (if (c =? 34)%N then [34%N; 34%N] else [c]) st
                    = Csv.add st c Csv.Quoted).
    { destruct (N.eqb_spec c 34) as [->|Hc]; cbn [fold_left].
      - unfold Csv.step at 2. rewrite Hm. reflexivity.
      - unfold Csv.step. rewrite Hm. apply N.eqb_neq in Hc. now rewrite Hc. }
    rewrite Hstep, IH; [|reflexivity]. cbn. now rewrite <- app_assoc.
Qed.

Lemma csv_run_field (f : list N) (r : list (list (list N)))
    (acc : list (list N)) :
  exists m,
    (m = Csv.Plain \/ m = Csv.Quote_seen)
    /\ fold_left Csv.step (csv_field f)
         {| Csv.records := r; Csv.fields := acc; Csv.cur := [];
            Csv.at_mode := Csv.Plain |}
       = {| Csv.records := r; Csv.fields := acc; Csv.cur := f;
            Csv.at_mode := m |}.
Proof.
  unfold csv_field. destruct (existsb csv_special f) eqn:Hsp.
  - exists Csv.Quote_seen. split; [now right|].
    cbn [fold_left]. rewrite fold_left_app.
    change (Csv.step _ 34%N)
      with {| Csv.records := r; Csv.fields := acc; Csv.cur := [];
              Csv.at_mode := Csv.Quoted |}.
    rewrite csv_run_quoted by reflexivity. reflexivity.
  - exists Csv.Plain. split; [now left|].
    now rewrite csv_run_plain.
Qed.

Lemma csv_run_fields (fs : list (list N)) (r : list (list (list N)))
    (acc : list (list N)) :
  fs <> [] ->
  fold_left Csv.step (join [44%N] (map csv_field fs) ++ [13%N; 10%N])
    {| Csv.records := r; Csv.fields := acc; Csv.cur := [];
       Csv.at_mode := Csv.Plain |}
  = {| Csv.records := r ++ [acc ++ fs]; Csv.fields := []; Csv.cur := [];
       Csv.at_mode := Csv.Plain |}.
Proof.
  revert acc. induction fs as [|f fs IH]; intros acc Hne; [congruence|].
  destruct (csv_run_field f r acc) as (m & Hm & Hf).
  destruct fs as [|g fs].
  - cbn [map join]. rewrite fold_left_app, Hf.
    destruct Hm as [-> | ->]; reflexivity.
  - change (join [44%N] (map csv_field (f :: g :: fs)))
      with (csv_field f ++ [44%N] ++ join [44%N] (map csv_field (g :: fs))).
    rewrite <- !app_assoc, fold_left_app, Hf.
    cbn [app fold_left].
    replace (Csv.step _ 44%N)
      with {| Csv.records := r; Csv.fields := acc ++ [f]; Csv.cur := [];
              Csv.at_mode := Csv.Plain |}
      by (destruct Hm as [-> | ->]; reflexivity).
    rewrite IH by discriminate. now rewrite <- app_assoc.
Qed.

Lemma csv_run_record (fs : list (list N)) (r : list (list (list N))) :
  fs <> [] ->
  fold_left Csv.step (csv_record fs)
    {| Csv.records := r; Csv.fields := []; Csv.cur := [];
       Csv.at_mode := Csv.Plain |}
  = {| Csv.records := r ++ [fs]; Csv.fields := []; Csv.cur := [];
       Csv.at_mode := Csv.Plain |}.
Proof.
  intros Hne.
  assert (Hgen : fold_left Csv.step
                   (join [44%N] (map csv_field fs) ++ [13%N; 10%N])
                   {| Csv.records := r; Csv.fields := []; Csv.cur := [];
                      Csv.at_mode := Csv.Plain |}
                 = {| Csv.records := r ++ [fs]; Csv.fields := [];
                      Csv.cur := []; Csv.at_mode := Csv.Plain |})
    by now rewrite csv_run_fields.
  destruct fs as [|[|c f] [|g fs]]; exact Hgen.
Qed.

Lemma csv_run_records (rows r : list (list (list N))) :
  Forall (fun fs => fs <> []) rows ->
  fold_left Csv.step (flat_map csv_record rows)
    {| Csv.records := r; Csv.fields := []; Csv.cur := [];
       Csv.at_mode := Csv.Plain |}
  = {| Csv.records := r ++ rows; Csv.fields := []; Csv.cur := [];
       Csv.at_mode := Csv.Plain |}.
Proof.
  intros H. revert r. induction H as [|fs rows Hfs Hrows IH]; intros r.
  - cbn. now rewrite app_nil_r.
  - cbn [flat_map]. rewrite fold_left_app, csv_run_record by exact Hfs.
    rewrite IH. now rewrite <- app_assoc.
Qed.

Lemma csv_read_content (rows : list (list sqlvalue)) :
  Forall (fun values => values <> []) rows ->
  Csv.read (csv_content rows) = csv_header :: map (map csv_text) rows.
Proof.
  intros H. unfold Csv.read, csv_content, Csv.start.
  rewrite csv_run_records; [reflexivity|].
  constructor; [discriminate|].
  induction H as [|v rows Hv Hrows IH]; [constructor|].
  constructor; [|exact IH]. destruct v; [congruence | discriminate].
Qed.

(** X26. The exported text can be read back: a reader that splits records
    at CR LF and fields at commas, and takes a quoted field with its
    doubled quotes undone, recovers the header line followed by the text
    of every value of every fetched row, whatever commas, quotes or line
    breaks the values contain. *)
Theorem exported_text_reads_back (rows : list (list sqlvalue)) :
  Forall (fun values => values <> []) rows ->
  Csv.read (csv_content rows) = csv_header :: map (map csv_text) rows
  /\ length (Csv.read (csv_content rows)) = S (length rows).
Proof.
  intros H. rewrite (csv_read_content rows H). split; [reflexivity|].
  cbn. now rewrite length_map.
Qed.

Lemma exported_text_reads_back_witness :
  Csv.read
    (csv_content
       [[Int 1; Null; Text (u "a,b"); Text (34%N :: u "q");
         Text (u "l" ++ [13%N; 10%N] ++ u "m")]])
  = [csv_header;
     [u "1"; []; u "a,b"; 34%N :: u "q"; u "l" ++ [13%N; 10%N] ++ u "m"]].
Proof.
  refine (proj1 (exported_text_reads_back _ _)).
  repeat constructor; discriminate.
Defined.

(** X27. When [download] answers, its body is the byte order mark followed
    by UTF-8 bytes that decode and read back to the header line and the
    text of the fetched rows; the file name carries the day it was given;
    and the statement that was run is one of four fixed texts with as many
    [?] placeholders as bound parameters. *)
Theorem download_response_reads_back
    (strptime : list N -> list N -> option datetime)
    (fetch_export :
       list N -> list sqlparam -> list row -> list (list sqlvalue))
    (today : list N) (start_date_str end_date_str : option (list N))
    (db : list row) (response : download_response) :
  download strptime fetch_export today start_date_str end_date_str db
  = Some response ->
  exists params bytes,
    download_executed response
    = (download_query start_date_str end_date_str, params)
    /\ Notions.placeholders (download_query start_date_str end_date_str)
       = length params
    /\ content_disposition response = h_attachment ++ today ++ h_csv
    /\ body response = [239%N; 187%N; 191%N] ++ bytes
    /\ (Forall (fun values => values <> [])
          (fetch_export (download_query start_date_str end_date_str)
             params db) ->
        Csv.read (utf8_go 0 0 bytes)
        = csv_header
          :: map (map csv_text)
               (fetch_export (download_query start_date_str end_date_str)
                  params db)).
Proof.
  unfold download.
  destruct (statistics_params strptime start_date_str end_date_str)
    as [params|] eqn:Hp; [|discriminate].
  cbn [mbind option_bind]. unfold encode_utf8_sig.
  destruct (utf8_encode _) as [bytes|] eqn:He; [|discriminate].
  cbn [mbind option_bind]. intros [= <-].
  exists params, bytes. cbn [download_executed content_disposition body].
  split; [reflexivity|]. split.
  - rewrite (statistics_params_length _ _ _ _ Hp). unfold download_query.
    destruct (given start_date_str), (given end_date_str);
      vm_compute; reflexivity.
  - split; [reflexivity|]. split; [reflexivity|].
    intros Hrows. rewrite (utf8_encode_decode _ _ He).
    now apply csv_read_content.
Qed.

Lemma download_response_reads_back_witness :
  exists response params bytes,
    download Lib.strptime (fun _ _ _ => [[Int 1; Text (u "张,三")]])
      (u "20251029") (Some (u "2025-10-01")) None [] = Some response
    /\ download_executed response
       = (download_query (Some (u "2025-10-01")) None, params)
    /\ Notions.placeholders (download_query (Some (u "2025-10-01")) None)
       = length params
    /\ content_disposition response = h_attachment ++ u "20251029" ++ h_csv
    /\ body response = [239%N; 187%N; 191%N] ++ bytes
    /\ (Forall (fun values => values <> []) [[Int 1; Text (u "张,三")]] ->
        Csv.read (utf8_go 0 0 bytes)
        = csv_header :: map (map csv_text) [[Int 1; Text (u "张,三")]]).
Proof.
  eexists.
  destruct (download_response_reads_back Lib.strptime
              (fun _ _ _ => [[Int 1; Text (u "张,三")]])
              (u "20251029") (Some (u "2025-10-01")) None [] _ eq_refl)
    as (params & bytes & H).
  exists params, bytes. split; [reflexivity | exact H].
Defined.

Lemma edit_last_write_wins_witness :
  (edit_fault POST 1
     (<[f_status := status_resolved]> (<[f_resolution_log := u "b"]> ∅))
     (edit_fault POST 1
        (<[f_status := status_in_progress]>
           (<[f_resolution_log := u "a"]> ∅))
        [ex_row]).2).2
  = (edit_fault POST 1
       (<[f_status := status_resolved]> (<[f_resolution_log := u "b"]> ∅))
       [ex_row]).2.
Proof.
  apply (proj1 (edit_last_write_wins 1 _ _ [ex_row])).
  split; eexists; reflexivity.
Defined.
